(** * PN-junction simulator: the physics solver of [src/utils/physics.ts]

    The TypeScript module computes with JavaScript numbers (IEEE-754
    binary64).  Its four functions are embedded once, over an interface
    [JsNumber] of the number operations they use, and read under two
    interpretations of that interface:

    - [R_number]: exact real arithmetic (Stdlib [Reals]), for the analytic
      content of the solver (Newton iteration, monotonicity, bounds);
    - [F_number]: binary64 (the kernel's primitive floats), executable, for
      what depends on rounding, signed zeros and overflow (the sweep of
      [generateCurveData], finiteness).

    Part I holds the interface, the embedding, the two interpretations and
    the forward solve as the specification words it.  Part II holds the
    properties: those of the branches of [calculateCurrent], which hold
    under every interpretation; the sweep, in binary64; the depletion
    factor, zero bias and the Newton iteration, over the reals; and
    finiteness, in binary64, where the results over the reals are also
    evaluated at the built-in parameters. *)

From Stdlib Require Import List Bool ZArith QArith Lia.
From Stdlib Require Import Reals Lra.
From Stdlib Require Floats.
Import ListNotations.

Set Implicit Arguments.

(* ================================================================== *)
(** * Part I.  The embedding                                           *)
(* ================================================================== *)

(** ** The number operations used by physics.ts *)

Declare Scope js_scope.
Delimit Scope js_scope with js.

(** [lit q] is the numeric literal whose decimal value is the rational [q];
    [ltb x y] is [x < y] and [leb x y] is [x <= y] (so [x > y] is [ltb y x]
    and [x >= y] is [leb y x]); [toFixed2 x] is
    [parseFloat(x.toFixed(2))].  The two laws are shared by the reals and
    by IEEE arithmetic: [x < y] excludes [x >= y], and addition is
    commutative. *)
Class JsNumber (num : Type) : Type := {
  lit : Q -> num;
  add : num -> num -> num;
  sub : num -> num -> num;
  mul : num -> num -> num;
  div : num -> num -> num;
  neg : num -> num;
  ltb : num -> num -> bool;
  leb : num -> num -> bool;
  Math_exp : num -> num;
  Math_sqrt : num -> num;
  Math_abs : num -> num;
  Math_min : num -> num -> num;
  Math_max : num -> num -> num;
  toFixed2 : num -> num;
  ltb_excludes_geb : forall x y, ltb x y = true -> leb y x = false;
  add_comm : forall x y, add x y = add y x
}.

Infix "+" := add : js_scope.
Infix "-" := sub : js_scope.
Infix "*" := mul : js_scope.
Infix "/" := div : js_scope.
Notation "- x" := (neg x) : js_scope.
Notation "x <? y" := (ltb x y) (at level 70, no associativity) : js_scope.
Notation "x <=? y" := (leb x y) (at level 70, no associativity) : js_scope.
Notation "x >? y" := (ltb y x) (at level 70, no associativity) : js_scope.
Notation "x >=? y" := (leb y x) (at level 70, no associativity) : js_scope.

(** ** types.ts *)

Inductive DopingLevel : Type := LIGHT | MODERATE | HEAVY.

Inductive SimulationMode : Type := IDEAL | NON_IDEAL.

Record DiodeParams (num : Type) : Type := mkDiodeParams {
  Is : num;               (* saturation current (amperes) *)
  n : num;                (* ideality factor *)
  Vbi : num;              (* built-in potential (volts) *)
  Rs : num;               (* series resistance (ohms) *)
  breakdownVoltage : num  (* volts (negative) *)
}.

(** A point of a curve, the object literal [{ v: ..., i: ... }]. *)
Record CurvePoint (num : Type) : Type := mkCurvePoint {
  v : num;
  i : num
}.

(** ** physics.ts *)

Section Physics.

Context {num : Type} {ops : JsNumber num}.
Local Open Scope js_scope.

Definition THERMAL_VOLTAGE_VT : num := lit (26 # 1000).

Definition getDiodeParams (doping : DopingLevel) : DiodeParams num :=
  match doping with
  | LIGHT =>
      {| Is := lit (1 # 1000000000000); n := lit (11 # 10); Vbi := lit (60 # 100);
         Rs := lit (25 # 1); breakdownVoltage := - lit (50 # 1) |}
  | HEAVY =>
      {| Is := lit (1 # 1000000000); n := lit (15 # 10); Vbi := lit (85 # 100);
         Rs := lit (2 # 1); breakdownVoltage := - lit (45 # 10) |}
  | MODERATE =>
      {| Is := lit (1 # 100000000000); n := lit (12 # 10); Vbi := lit (70 # 100);
         Rs := lit (10 # 1); breakdownVoltage := - lit (20 # 1) |}
  end.

(** One pass through the body of the [for] loop of the forward solve:
    the Newton-Raphson update [nextVd] of the junction voltage [Vd]. *)
Definition nextVd (voltage : num) (params : DiodeParams num) (Vd : num) : num :=
  let expTerm := Math_exp (Vd / (n params * THERMAL_VOLTAGE_VT)) in
  let f := Vd + Is params * Rs params * (expTerm - lit 1) - voltage in
  let df := lit 1 + Is params * Rs params * expTerm / (n params * THERMAL_VOLTAGE_VT) in
  Vd - f / df.

(** The loop [for (let i = 0; i < 10; i++)] with [iters] passes left:
    it leaves through [break] as soon as two successive values differ by
    less than 1e-5, and otherwise when the counter runs out. *)
Fixpoint newton_loop (iters : nat) (voltage : num) (params : DiodeParams num)
    (Vd : num) : num :=
  match iters with
  | O => Vd
  | S iters' =>
      let next := nextVd voltage params Vd in
      if Math_abs (next - Vd) <? lit (1 # 100000) then next
      else newton_loop iters' voltage params next
  end.

Definition calculateCurrent (voltage : num) (params : DiodeParams num)
    (mode : SimulationMode) : num :=
  match mode with
  | IDEAL =>
      if voltage >=? lit 0 then
        Is params * (Math_exp (voltage / (n params * THERMAL_VOLTAGE_VT)) - lit 1)
      else
        - Is params
  | NON_IDEAL =>
      if voltage >=? lit 0 then
        let Vd := newton_loop 10 voltage params voltage in
        let Vd := if Vd >? voltage then voltage else Vd in
        Is params * (Math_exp (Vd / (n params * THERMAL_VOLTAGE_VT)) - lit 1)
      else
        let leakageCurrent := voltage * lit (1 # 100000000) in
        let shockleyCurrent :=
          Is params * (Math_exp (voltage / (n params * THERMAL_VOLTAGE_VT)) - lit 1) in
        let breakdownCurrent :=
          if voltage <? breakdownVoltage params then
            let diff := breakdownVoltage params - voltage in
            - Is params * (Math_exp (diff * lit 2) - lit 1) * lit 1000
          else lit 0 in
        shockleyCurrent + leakageCurrent + breakdownCurrent
  end.

Definition calculateDepletionFactor (voltage Vbi : num) : num :=
  let V_effective := Math_min voltage (Vbi - lit (5 # 100)) in
  let w := Math_sqrt (Vbi - V_effective) / Math_sqrt Vbi in
  Math_max (lit (1 # 10)) (Math_min (lit 3) w).

(** The sweep [for (let v = -5.0; v <= 5.0; v += 0.1)].  Nothing in its
    text bounds the number of passes, so the model counts them down from
    [fuel] and answers [None] when the count runs out before the test
    [v <= 5.0] fails. *)
Fixpoint sweep (fuel : nat) (params : DiodeParams num) (x : num)
    (idealPoints nonIdealPoints : list (CurvePoint num))
    : option (list (CurvePoint num) * list (CurvePoint num)) :=
  match fuel with
  | O => None
  | S fuel' =>
      if x <=? lit 5 then
        let vFixed := toFixed2 x in
        sweep fuel' params (x + lit (1 # 10))
          (idealPoints ++
             [ {| v := vFixed; i := calculateCurrent vFixed params IDEAL * lit 1000 |} ])
          (nonIdealPoints ++
             [ {| v := vFixed; i := calculateCurrent vFixed params NON_IDEAL * lit 1000 |} ])
      else Some (idealPoints, nonIdealPoints)
  end.

Definition generateCurveData_fuel (fuel : nat) (params : DiodeParams num) :=
  sweep fuel params (- lit 5) [] [].

Definition generateCurveData (params : DiodeParams num) :=
  generateCurveData_fuel 1000 params.

End Physics.

(** ** Interpretation over the reals *)

Module RealNumber.

Local Open Scope R_scope.

Definition Rltb (x y : R) : bool := if Rlt_dec x y then true else false.

Definition Rleb (x y : R) : bool := if Rle_dec x y then true else false.

(** [toFixed(2)] prints the multiple of 1/100 nearest to the number, the
    larger one in magnitude on a tie; [parseFloat] reads it back.  [up r]
    is the integer with [r < up r <= r + 1]. *)
Definition Rround2 (x : R) : R :=
  let k := IZR (up (Rabs x * 100 - / 2)) in
  if Rlt_dec x 0 then - (k / 100) else k / 100.

Lemma Rltb_excludes_Rgeb (x y : R) : Rltb x y = true -> Rleb y x = false.
Proof.
  unfold Rltb, Rleb.
  destruct (Rlt_dec x y) as [Hlt | Hnlt]; [intros _ | discriminate].
  destruct (Rle_dec y x) as [Hle | Hnle]; [lra | reflexivity].
Qed.

#[export] Instance R_number : JsNumber R := {|
  lit := Q2R;
  add := Rplus;
  sub := Rminus;
  mul := Rmult;
  div := Rdiv;
  neg := Ropp;
  ltb := Rltb;
  leb := Rleb;
  Math_exp := exp;
  Math_sqrt := sqrt;
  Math_abs := Rabs;
  Math_min := Rmin;
  Math_max := Rmax;
  toFixed2 := Rround2;
  ltb_excludes_geb := Rltb_excludes_Rgeb;
  add_comm := Rplus_comm
|}.

End RealNumber.

(** ** Interpretation over binary64 *)

Module Binary64.

Import Floats.
Local Open Scope float_scope.

(** The binary64 number nearest to the ratio [p / q] of two positive
    integers (ties to even), with sign [s]: what a decimal literal and
    [parseFloat] denote. *)
Definition nearest_ratio (s : bool) (p q : positive) : float :=
  let '(mz, ez, lz) := SFdiv_core_binary prec emax (Zpos p) 0 (Zpos q) 0 in
  SF2Prim (binary_round_aux prec emax s mz ez lz).

Definition F_lit (q : Q) : float :=
  match Qnum q with
  | Z0 => 0
  | Zpos p => nearest_ratio false p (Qden q)
  | Zneg p => nearest_ratio true p (Qden q)
  end.

(** [Math.min] and [Math.max]: NaN if either argument is NaN, and -0 is
    smaller than +0. *)
Definition F_min (x y : float) : float :=
  if is_nan x || is_nan y then nan
  else if x <? y then x
  else if y <? x then y
  else if get_sign x then x else y.

Definition F_max (x y : float) : float :=
  if is_nan x || is_nan y then nan
  else if x <? y then y
  else if y <? x then x
  else if get_sign x then y else x.

(** [parseFloat(x.toFixed(2))].  For a finite non-zero [x = (-1)^s m 2^e]
    below 1e21 in magnitude, [toFixed(2)] prints sign and [k / 100] for the
    integer [k] nearest to [100 |x|] (the larger one on a tie), and
    [parseFloat] reads the nearest binary64 number back; a negative [x]
    that rounds to [k = 0] prints as "-0.00" and reads back as -0.  Zeros,
    infinities, NaN and numbers from 1e21 on print in full and read back as
    themselves. *)
Definition F_toFixed2 (x : float) : float :=
  match Prim2SF x with
  | S754_finite s m e =>
      let k :=
        if (0 <=? e)%Z then (Zpos m * 2 ^ e * 100)%Z
        else ((200 * Zpos m + 2 ^ (- e)) / 2 ^ (- e + 1))%Z in
      if (100000 * 10 ^ 18 <=? k)%Z then x
      else
        match k with
        | Zpos p => nearest_ratio s p 100
        | _ => if s then neg_zero else zero
        end
  | _ => x
  end.

(** [Math.exp] is a function of the host, not of the repository.
    ECMAScript fixes its value at NaN, at the zeros and at the infinities,
    and asks elsewhere for an approximation of the exponential.  The model
    takes the fixed values as they are and approximates elsewhere by
    scaling and squaring: [e^x = (e^(x/1024))^1024], with the Taylor
    polynomial of degree 14 for [e^(x/1024)].  Arguments above 710
    overflow to Infinity and arguments below -746 underflow to 0. *)
Definition exp_poly (y : float) : float :=
  1 + y * (1 + y / 2 * (1 + y / 3 * (1 + y / 4 * (1 + y / 5 * (1 + y / 6 *
     (1 + y / 7 * (1 + y / 8 * (1 + y / 9 * (1 + y / 10 * (1 + y / 11 *
     (1 + y / 12 * (1 + y / 13 * (1 + y / 14))))))))))))).

Fixpoint square_times (k : nat) (y : float) : float :=
  match k with
  | O => y
  | S k' => square_times k' (y * y)
  end.

Definition F_exp (x : float) : float :=
  if is_nan x then nan
  else if 710 <? x then infinity
  else if x <? -746 then 0
  else square_times 10 (exp_poly (x / 1024)).

End Binary64.

Module Binary64Number.

Import Floats.
Import Binary64.
Local Open Scope float_scope.

Lemma Pos_compare_cont_swap (p q : positive) :
  Pos.compare_cont Eq p q = CompOpp (Pos.compare_cont Eq q p).
Proof. symmetry. apply (Pos.compare_cont_antisym q p Eq). Qed.

(** IEEE comparison is antisymmetric: from [x < y] the comparison of [y]
    with [x] answers "greater". *)
Lemma SFcompare_Lt_swap (x y : spec_float) :
  SFcompare x y = Some Lt -> SFcompare y x = Some Gt.
Proof.
  destruct x as [sx | sx | | sx mx ex], y as [sy | sy | | sy my ey]; simpl;
    try discriminate;
    try (destruct sx; try destruct sy; simpl; congruence).
  destruct sx, sy; try congruence.
  - rewrite (Z.compare_antisym ex ey).
    destruct (ex ?= ey)%Z; simpl; try congruence.
    rewrite (Pos_compare_cont_swap my mx).
    destruct (Pos.compare_cont Eq mx my); simpl; congruence.
  - rewrite (Z.compare_antisym ex ey).
    destruct (ex ?= ey)%Z; simpl; try congruence.
    rewrite (Pos_compare_cont_swap my mx).
    destruct (Pos.compare_cont Eq mx my); simpl; congruence.
Qed.

Lemma F_ltb_excludes_geb (x y : float) : (x <? y) = true -> (y <=? x) = false.
Proof.
  rewrite ltb_spec, leb_spec. unfold SFltb, SFleb.
  destruct (SFcompare (Prim2SF x) (Prim2SF y)) as [[ | | ] | ] eqn:Hc;
    try discriminate.
  intros _. now rewrite (SFcompare_Lt_swap _ _ Hc).
Qed.

Lemma SFadd_comm (x y : spec_float) : SF64add x y = SF64add y x.
Proof.
  destruct x as [sx | sx | | sx mx ex], y as [sy | sy | | sy my ey]; simpl;
    try reflexivity;
    try (destruct sx, sy; reflexivity).
  now rewrite (Z.min_comm ey ex), Z.add_comm.
Qed.

Lemma F_add_comm (x y : float) : x + y = y + x.
Proof. apply Prim2SF_inj. rewrite !add_spec. apply SFadd_comm. Qed.

#[export] Instance F_number : JsNumber float :=
  Build_JsNumber F_lit PrimFloat.add PrimFloat.sub PrimFloat.mul PrimFloat.div
    PrimFloat.opp PrimFloat.ltb PrimFloat.leb
    F_exp PrimFloat.sqrt PrimFloat.abs F_min F_max F_toFixed2
    F_ltb_excludes_geb F_add_comm.

End Binary64Number.

(** ** The forward solve as the specification words it

    Newton-Raphson on [f(Vd) = Vd + Is*Rs*(exp(Vd/(n*Vt)) - 1) - voltage]
    with derivative [f'(Vd) = 1 + Is*Rs*exp(Vd/(n*Vt))/(n*Vt)], started at
    [voltage].  These definitions follow the text of the specification;
    the theorems of Part II compare them with the loop of the source. *)

Section NewtonSpec.

Context {num : Type} {ops : JsNumber num}.
Local Open Scope js_scope.

Definition f_spec (voltage : num) (params : DiodeParams num) (Vd : num) : num :=
  Vd + Is params * Rs params * (Math_exp (Vd / (n params * lit (26 # 1000))) - lit 1)
  - voltage.

Definition f'_spec (params : DiodeParams num) (Vd : num) : num :=
  lit 1 + Is params * Rs params * Math_exp (Vd / (n params * lit (26 # 1000)))
          / (n params * lit (26 # 1000)).

Definition newton_step_spec (voltage : num) (params : DiodeParams num) (Vd : num) : num :=
  Vd - f_spec voltage params Vd / f'_spec params Vd.

(** [iterate_spec voltage params k] is [Vd_k], with [Vd_0 = voltage]. *)
Definition iterate_spec (voltage : num) (params : DiodeParams num) (k : nat) : num :=
  Nat.iter k (newton_step_spec voltage params) voltage.

(** The convergence test [|Vd_{k+1} - Vd_k| < 1e-5]. *)
Definition converged_spec (voltage : num) (params : DiodeParams num) (k : nat) : bool :=
  Math_abs (iterate_spec voltage params (S k) - iterate_spec voltage params k)
  <? lit (1 # 100000).

(** The clamp [Vd <= voltage] applied after the loop. *)
Definition clamp_spec (voltage Vd : num) : num :=
  if Vd >? voltage then voltage else Vd.

(** The number of passes the loop of the source makes before it is left
    (a counter beside [newton_loop], which does not record it). *)
Fixpoint newton_passes (iters : nat) (voltage : num) (params : DiodeParams num)
    (Vd : num) : nat :=
  match iters with
  | O => O
  | S iters' =>
      let next := nextVd voltage params Vd in
      if Math_abs (next - Vd) <? lit (1 # 100000) then 1%nat
      else S (newton_passes iters' voltage params next)
  end.

End NewtonSpec.

(* ================================================================== *)
(** * Part II.  Properties                                             *)
(* ================================================================== *)

(** ** Properties that hold under every interpretation of the numbers *)

Section Structural.

Context {num : Type} {ops : JsNumber num}.
Local Open Scope js_scope.

Implicit Types (voltage Vd : num) (params : DiodeParams num).

Lemma nextVd_is_newton_step voltage params Vd :
  nextVd voltage params Vd = newton_step_spec voltage params Vd.
Proof. reflexivity. Qed.

(** The loop returns the iterate numbered by its pass count. *)
Lemma newton_loop_passes iters voltage params Vd :
  newton_loop iters voltage params Vd
  = Nat.iter (newton_passes iters voltage params Vd) (nextVd voltage params) Vd.
Proof.
  revert Vd. induction iters as [ | iters IH]; intros Vd; simpl; [reflexivity | ].
  destruct (Math_abs (nextVd voltage params Vd - Vd) <? lit (1 # 100000)).
  - reflexivity.
  - rewrite IH. symmetry. apply Nat.iter_succ_r.
Qed.

Lemma newton_passes_bounds iters voltage params Vd :
  (newton_passes (S iters) voltage params Vd <= S iters)%nat
  /\ (1 <= newton_passes (S iters) voltage params Vd)%nat.
Proof.
  revert Vd. induction iters as [ | iters IH]; intros Vd.
  - simpl. destruct (_ <? _); lia.
  - change (newton_passes (S (S iters)) voltage params Vd)
      with (if Math_abs (nextVd voltage params Vd - Vd) <? lit (1 # 100000)
            then 1%nat
            else S (newton_passes (S iters) voltage params (nextVd voltage params Vd))).
    destruct (_ <? _); [lia | ].
    specialize (IH (nextVd voltage params Vd)). lia.
Qed.

(** The convergence test of pass [j + 1], counted from an arbitrary start. *)
Definition test_from voltage params Vd (j : nat) : bool :=
  Math_abs (Nat.iter (S j) (nextVd voltage params) Vd
            - Nat.iter j (nextVd voltage params) Vd) <? lit (1 # 100000).

Lemma test_from_shift voltage params Vd j :
  test_from voltage params (nextVd voltage params Vd) j
  = test_from voltage params Vd (S j).
Proof.
  unfold test_from.
  now rewrite <- !Nat.iter_succ_r.
Qed.

(** Every test before the last pass failed, and the last pass succeeded
    unless the counter ran out. *)
Lemma newton_passes_tests iters voltage params Vd :
  let k := newton_passes iters voltage params Vd in
  (forall j, (S j < k)%nat -> test_from voltage params Vd j = false)
  /\ ((k < iters)%nat -> test_from voltage params Vd (k - 1) = true).
Proof.
  revert Vd. induction iters as [ | iters IH]; intros Vd; simpl.
  - split; intros; lia.
  - destruct (Math_abs (nextVd voltage params Vd - Vd) <? lit (1 # 100000)) eqn:Htest.
    + split; [intros j Hj; lia | intros _; exact Htest].
    + destruct (IH (nextVd voltage params Vd)) as [Hbefore Hlast].
      split.
      * intros [ | j] Hj; [exact Htest | ].
        rewrite <- test_from_shift. apply Hbefore. lia.
      * intros Hk.
        assert (Hpos : (1 <= newton_passes iters voltage params (nextVd voltage params Vd))%nat).
        { destruct iters as [ | iters']; [lia | apply newton_passes_bounds]. }
        replace (S (newton_passes iters voltage params (nextVd voltage params Vd)) - 1)%nat
          with (S (newton_passes iters voltage params (nextVd voltage params Vd) - 1))
          by lia.
        rewrite <- test_from_shift. apply Hlast. lia.
Qed.

End Structural.

Section SolverBranches.

Context {num : Type} {ops : JsNumber num}.
Local Open Scope js_scope.

Implicit Types (voltage Vd : num) (params : DiodeParams num).

Lemma converged_spec_test_from voltage params j :
  converged_spec voltage params j = test_from voltage params voltage j.
Proof. reflexivity. Qed.

(** C1.  Non-ideal mode, [voltage >= 0]: the result is the current implied
    by the clamped Newton iterate [Vd_k], where [k] is between 1 and 10,
    no convergence test succeeded before pass [k], and the test of pass
    [k] succeeded unless [k = 10].  The function is total: it returns
    this value whether or not any test succeeded. *)
Theorem calculateCurrent_forward_is_newton voltage params :
  (voltage >=? lit 0) = true ->
  exists k : nat,
    (1 <= k <= 10)%nat
    /\ (forall j, (S j < k)%nat -> converged_spec voltage params j = false)
    /\ ((k < 10)%nat -> converged_spec voltage params (k - 1) = true)
    /\ calculateCurrent voltage params NON_IDEAL
       = Is params
         * (Math_exp (clamp_spec voltage (iterate_spec voltage params k)
                      / (n params * lit (26 # 1000))) - lit 1).
Proof.
  intros Hforward.
  exists (newton_passes 10 voltage params voltage).
  destruct (newton_passes_bounds 9 voltage params voltage) as [Hle Hge].
  destruct (newton_passes_tests 10 voltage params voltage) as [Hbefore Hlast].
  repeat split; try assumption.
  unfold calculateCurrent. rewrite Hforward.
  rewrite newton_loop_passes. reflexivity.
Qed.

(** C3.  Ideal mode: the Shockley law from 0 upward, and the flat
    saturation current [-Is] below 0. *)
Theorem calculateCurrent_ideal voltage params :
  ((voltage >=? lit 0) = true ->
   calculateCurrent voltage params IDEAL
   = Is params * (Math_exp (voltage / (n params * lit (26 # 1000))) - lit 1))
  /\ ((voltage <? lit 0) = true ->
      calculateCurrent voltage params IDEAL = - Is params).
Proof.
  split; intros Hsign; unfold calculateCurrent.
  - now rewrite Hsign.
  - now rewrite (ltb_excludes_geb _ _ Hsign).
Qed.

(** C4.  Non-ideal mode, [voltage < 0]: leakage plus Shockley term plus
    breakdown term, the last being 0 from the breakdown voltage upward and
    [-Is * (exp((breakdownVoltage - voltage) * 2) - 1) * 1000] below it. *)
Theorem calculateCurrent_reverse_three_terms voltage params :
  (voltage <? lit 0) = true ->
  exists breakdown : num,
    calculateCurrent voltage params NON_IDEAL
    = voltage * lit (1 # 100000000)
      + Is params * (Math_exp (voltage / (n params * lit (26 # 1000))) - lit 1)
      + breakdown
    /\ ((voltage >=? breakdownVoltage params) = true -> breakdown = lit 0)
    /\ ((voltage <? breakdownVoltage params) = true ->
        breakdown
        = - Is params
          * (Math_exp ((breakdownVoltage params - voltage) * lit 2) - lit 1)
          * lit 1000).
Proof.
  intros Hreverse.
  unfold calculateCurrent. rewrite (ltb_excludes_geb _ _ Hreverse).
  destruct (voltage <? breakdownVoltage params) eqn:Hbreak.
  - eexists. split; [ | split].
    + rewrite (add_comm (voltage * _) _). reflexivity.
    + intros Hge. rewrite (ltb_excludes_geb _ _ Hbreak) in Hge. discriminate.
    + reflexivity.
  - eexists. split; [ | split].
    + rewrite (add_comm (voltage * _) _). reflexivity.
    + reflexivity.
    + discriminate.
Qed.

End SolverBranches.

(** ** The sweep of [generateCurveData] *)

Section Sweep.

Context {num : Type} {ops : JsNumber num}.
Local Open Scope js_scope.

Implicit Types (params : DiodeParams num) (x : num).

(** The values the loop variable takes, in order. *)
Fixpoint sweep_raw (fuel : nat) x : option (list num) :=
  match fuel with
  | O => None
  | S fuel' =>
      if x <=? lit 5 then option_map (cons x) (sweep_raw fuel' (x + lit (1 # 10)))
      else Some []
  end.

Definition ideal_point params x : CurvePoint num :=
  {| v := toFixed2 x; i := calculateCurrent (toFixed2 x) params IDEAL * lit 1000 |}.

Definition nonIdeal_point params x : CurvePoint num :=
  {| v := toFixed2 x; i := calculateCurrent (toFixed2 x) params NON_IDEAL * lit 1000 |}.

(** The two arrays grow by one point per value of the loop variable. *)
Lemma sweep_by_raw fuel params x idealPoints nonIdealPoints :
  sweep fuel params x idealPoints nonIdealPoints
  = option_map
      (fun raw => (idealPoints ++ map (ideal_point params) raw,
                   nonIdealPoints ++ map (nonIdeal_point params) raw))
      (sweep_raw fuel x).
Proof.
  revert x idealPoints nonIdealPoints.
  induction fuel as [ | fuel IH]; intros x idealPoints nonIdealPoints; simpl;
    [reflexivity | ].
  destruct (x <=? lit 5).
  - rewrite IH. destruct (sweep_raw fuel (x + lit (1 # 10))) as [raw | ]; simpl;
      [ | reflexivity].
    now rewrite <- !app_assoc.
  - simpl. now rewrite !app_nil_r.
Qed.

(** More fuel than the loop needs changes nothing. *)
Lemma sweep_raw_more_fuel fuel fuel' x raw :
  sweep_raw fuel x = Some raw -> (fuel <= fuel')%nat -> sweep_raw fuel' x = Some raw.
Proof.
  revert fuel' x raw.
  induction fuel as [ | fuel IH]; intros fuel' x raw; simpl; [discriminate | ].
  intros Hrun Hle. destruct fuel' as [ | fuel']; [lia | ]. simpl.
  destruct (x <=? lit 5); [ | exact Hrun].
  destruct (sweep_raw fuel (x + lit (1 # 10))) as [rest | ] eqn:Hrest;
    [ | discriminate].
  rewrite (IH fuel' _ rest Hrest); [exact Hrun | lia].
Qed.

Lemma generateCurveData_by_raw fuel params raw :
  sweep_raw fuel (- lit 5) = Some raw ->
  generateCurveData_fuel fuel params
  = Some (map (ideal_point params) raw, map (nonIdeal_point params) raw).
Proof.
  intros Hraw. unfold generateCurveData_fuel.
  now rewrite sweep_by_raw, Hraw.
Qed.

Lemma ideal_point_current params raw :
  Forall (fun pt => i pt = calculateCurrent (v pt) params IDEAL * lit 1000)
         (map (ideal_point params) raw).
Proof. apply Forall_forall. intros pt [x [<- _]]%in_map_iff. reflexivity. Qed.

Lemma nonIdeal_point_current params raw :
  Forall (fun pt => i pt = calculateCurrent (v pt) params NON_IDEAL * lit 1000)
         (map (nonIdeal_point params) raw).
Proof. apply Forall_forall. intros pt [x [<- _]]%in_map_iff. reflexivity. Qed.

Lemma ideal_point_voltages params raw :
  map (@v num) (map (ideal_point params) raw) = map toFixed2 raw.
Proof. rewrite map_map. reflexivity. Qed.

Lemma nonIdeal_point_voltages params raw :
  map (@v num) (map (nonIdeal_point params) raw) = map toFixed2 raw.
Proof. rewrite map_map. reflexivity. Qed.

End Sweep.

Module SweepBinary64.

Import Floats.
Import Binary64 Binary64Number.
Local Open Scope float_scope.

(** The sampling grid -5.00, -4.90, ..., 5.00 as decimal fractions. *)
Definition grid : list Q :=
  map (fun k => (Z.of_nat k * 10 - 500) # 100) (seq 0 101).

(** The running sums [-5.0], [-5.0 + 0.1], [(-5.0 + 0.1) + 0.1], ... of the
    loop variable, 101 of them. *)
Definition running_sums : list float :=
  map (fun k => Nat.iter k (fun x => x + lit (1 # 10))%js (- lit 5)%js) (seq 0 101).

Fixpoint strictly_increasing (l : list float) : bool :=
  match l with
  | x :: (y :: _) as rest => (x <? y) && strictly_increasing rest
  | _ => true
  end.

(** IEEE equality of each member of [l] with the binary64 value of the
    corresponding decimal fraction. *)
Fixpoint equal_to_decimals (l : list float) (qs : list Q) : bool :=
  match l, qs with
  | [], [] => true
  | x :: l', q :: qs' => (x =? lit q) && equal_to_decimals l' qs'
  | _, _ => false
  end.

Lemma sweep_raw_running_sums : sweep_raw 102 (- lit 5)%js = Some running_sums.
Proof. vm_compute. reflexivity. Qed.

Lemma running_sums_fixed :
  length running_sums = 101%nat
  /\ equal_to_decimals (map toFixed2 running_sums) grid = true
  /\ strictly_increasing (map toFixed2 running_sums) = true.
Proof. vm_compute. repeat split. Qed.

(** C2.  For every parameter record the sweep ends and returns two series
    of 101 points each; their voltages are the running sums of the loop
    variable rounded to two decimals, they equal -5.00, -4.90, ..., 5.00
    and increase strictly; each current is [calculateCurrent] at the
    point's voltage times 1000.  Any fuel from 102 on gives this result. *)
Theorem generateCurveData_101_points (params : DiodeParams float) :
  exists idealPoints nonIdealPoints : list (CurvePoint float),
    generateCurveData params = Some (idealPoints, nonIdealPoints)
    /\ (forall fuel, (102 <= fuel)%nat ->
        generateCurveData_fuel fuel params = Some (idealPoints, nonIdealPoints))
    /\ length idealPoints = 101%nat
    /\ length nonIdealPoints = 101%nat
    /\ map (@v float) idealPoints = map toFixed2 running_sums
    /\ map (@v float) nonIdealPoints = map toFixed2 running_sums
    /\ equal_to_decimals (map (@v float) idealPoints) grid = true
    /\ equal_to_decimals (map (@v float) nonIdealPoints) grid = true
    /\ strictly_increasing (map (@v float) idealPoints) = true
    /\ strictly_increasing (map (@v float) nonIdealPoints) = true
    /\ Forall (fun pt => i pt = (calculateCurrent (v pt) params IDEAL * lit 1000)%js)
              idealPoints
    /\ Forall (fun pt => i pt = (calculateCurrent (v pt) params NON_IDEAL * lit 1000)%js)
              nonIdealPoints.
Proof.
  destruct running_sums_fixed as (Hlen & Hgrid & Hincr).
  assert (Hfuel : forall fuel, (102 <= fuel)%nat ->
            sweep_raw fuel (- lit 5)%js = Some running_sums).
  { intros fuel Hle.
    eapply sweep_raw_more_fuel; [exact sweep_raw_running_sums | exact Hle]. }
  exists (map (ideal_point params) running_sums),
         (map (nonIdeal_point params) running_sums).
  rewrite (ideal_point_voltages params running_sums).
  rewrite (nonIdeal_point_voltages params running_sums).
  rewrite !length_map.
  repeat match goal with |- _ /\ _ => split end; try assumption.
  - unfold generateCurveData. apply generateCurveData_by_raw, Hfuel. lia.
  - intros fuel Hle. apply generateCurveData_by_raw, Hfuel, Hle.
  - reflexivity.
  - reflexivity.
  - apply ideal_point_current.
  - apply nonIdeal_point_current.
Qed.

(** C10.  For every parameter record the two series returned by
    [generateCurveData] have the same length and carry the same voltage at
    every index. *)
Theorem generateCurveData_same_grid (params : DiodeParams float) :
  exists idealPoints nonIdealPoints : list (CurvePoint float),
    generateCurveData params = Some (idealPoints, nonIdealPoints)
    /\ length idealPoints = length nonIdealPoints
    /\ forall k, option_map (@v float) (nth_error idealPoints k)
                 = option_map (@v float) (nth_error nonIdealPoints k).
Proof.
  exists (map (ideal_point params) running_sums),
         (map (nonIdeal_point params) running_sums).
  split; [ | split].
  - unfold generateCurveData. apply generateCurveData_by_raw.
    eapply sweep_raw_more_fuel; [exact sweep_raw_running_sums | lia].
  - now rewrite !length_map.
  - intros k. rewrite !nth_error_map.
    destruct (nth_error running_sums k); reflexivity.
Qed.

End SweepBinary64.

(** ** The branches at concrete binary64 inputs *)

Module BranchWitnesses.

Import Floats.
Import Binary64 Binary64Number.
Local Open Scope js_scope.

(** Moderate doping at 0.7 V. *)
Lemma calculateCurrent_forward_is_newton_at_0_7 :
  (lit (7 # 10) >=? lit 0) = true
  /\ exists k : nat,
      (1 <= k <= 10)%nat
      /\ (forall j, (S j < k)%nat ->
          converged_spec (lit (7 # 10)) (getDiodeParams MODERATE) j = false)
      /\ ((k < 10)%nat ->
          converged_spec (lit (7 # 10)) (getDiodeParams MODERATE) (k - 1) = true)
      /\ calculateCurrent (lit (7 # 10)) (getDiodeParams MODERATE) NON_IDEAL
         = Is (getDiodeParams MODERATE)
           * (Math_exp
                (clamp_spec (lit (7 # 10))
                   (iterate_spec (lit (7 # 10)) (getDiodeParams MODERATE) k)
                 / (n (getDiodeParams MODERATE) * lit (26 # 1000))) - lit 1).
Proof.
  split; [vm_compute; reflexivity | ].
  apply calculateCurrent_forward_is_newton. vm_compute. reflexivity.
Defined.

(** Heavy doping at -4.6 V, just past the breakdown voltage -4.5 V. *)
Lemma calculateCurrent_reverse_three_terms_at_minus_4_6 :
  (lit (-46 # 10) <? lit 0) = true
  /\ exists breakdown : float,
      calculateCurrent (lit (-46 # 10)) (getDiodeParams HEAVY) NON_IDEAL
      = lit (-46 # 10) * lit (1 # 100000000)
        + Is (getDiodeParams HEAVY)
          * (Math_exp (lit (-46 # 10) / (n (getDiodeParams HEAVY) * lit (26 # 1000)))
             - lit 1)
        + breakdown
      /\ ((lit (-46 # 10) >=? breakdownVoltage (getDiodeParams HEAVY)) = true ->
          breakdown = lit 0)
      /\ ((lit (-46 # 10) <? breakdownVoltage (getDiodeParams HEAVY)) = true ->
          breakdown
          = - Is (getDiodeParams HEAVY)
            * (Math_exp ((breakdownVoltage (getDiodeParams HEAVY) - lit (-46 # 10)) * lit 2)
               - lit 1)
            * lit 1000).
Proof.
  split; [vm_compute; reflexivity | ].
  apply calculateCurrent_reverse_three_terms. vm_compute. reflexivity.
Defined.

End BranchWitnesses.

(** ** Properties over the reals *)

Module RealPhysics.

Import RealNumber.
Local Open Scope R_scope.

(** Rewrites the operations of [R_number] into those of [Reals] and the
    literals into quotients of integers. *)
Ltac js_to_R :=
  change (@lit R R_number) with Q2R in *;
  change (@add R R_number) with Rplus in *;
  change (@sub R R_number) with Rminus in *;
  change (@mul R R_number) with Rmult in *;
  change (@div R R_number) with Rdiv in *;
  change (@neg R R_number) with Ropp in *;
  change (@ltb R R_number) with Rltb in *;
  change (@leb R R_number) with Rleb in *;
  change (@Math_exp R R_number) with exp in *;
  change (@Math_sqrt R R_number) with sqrt in *;
  change (@Math_abs R R_number) with Rabs in *;
  change (@Math_min R R_number) with Rmin in *;
  change (@Math_max R R_number) with Rmax in *;
  unfold Q2R in *; cbn [Qnum Qden] in *.

Lemma Rltb_true (x y : R) : x < y -> Rltb x y = true.
Proof. intros H. unfold Rltb. destruct (Rlt_dec x y); [reflexivity | contradiction]. Qed.

Lemma Rltb_false (x y : R) : y <= x -> Rltb x y = false.
Proof. intros H. unfold Rltb. destruct (Rlt_dec x y); [lra | reflexivity]. Qed.

Lemma Rleb_true (x y : R) : x <= y -> Rleb x y = true.
Proof. intros H. unfold Rleb. destruct (Rle_dec x y); [reflexivity | contradiction]. Qed.

Lemma Rleb_false (x y : R) : y < x -> Rleb x y = false.
Proof. intros H. unfold Rleb. destruct (Rle_dec x y); [lra | reflexivity]. Qed.

(** The invariants the specification states for the fields the current
    solver reads. *)
Definition valid_params (p : DiodeParams R) : Prop :=
  0 < Is p /\ 1 <= n p /\ 0 <= Rs p.

(** *** The depletion factor *)

Lemma calculateDepletionFactor_R (voltage Vbi : R) :
  calculateDepletionFactor voltage Vbi
  = Rmax (1 / 10) (Rmin 3 (sqrt (Vbi - Rmin voltage (Vbi - 5 / 100)) / sqrt Vbi)).
Proof.
  unfold calculateDepletionFactor. js_to_R.
  replace (3 * / 1) with 3 by lra. reflexivity.
Qed.

(** C6.  For a positive built-in potential the depletion factor lies in
    [0.1, 3.0] at every voltage and does not increase when the voltage
    increases. *)
Theorem calculateDepletionFactor_range_monotone (Vbi : R) :
  0 < Vbi ->
  (forall voltage, 1 / 10 <= calculateDepletionFactor voltage Vbi <= 3)
  /\ (forall v1 v2, v1 <= v2 ->
      calculateDepletionFactor v2 Vbi <= calculateDepletionFactor v1 Vbi).
Proof.
  intros HVbi. split.
  - intros voltage. rewrite calculateDepletionFactor_R. split.
    + apply Rmax_l.
    + apply Rmax_lub; [lra | apply Rmin_l].
  - intros v1 v2 Hle. rewrite !calculateDepletionFactor_R.
    apply Rle_max_compat_l, Rle_min_compat_l.
    apply Rmult_le_compat_r.
    + left. apply Rinv_0_lt_compat, sqrt_lt_R0, HVbi.
    + apply sqrt_le_1_alt.
      pose proof (Rle_min_compat_r v1 v2 (Vbi - 5 / 100) Hle). lra.
Qed.

Lemma calculateDepletionFactor_range_monotone_at_0_7 :
  0 < 7 / 10
  /\ (forall voltage, 1 / 10 <= calculateDepletionFactor voltage (7 / 10) <= 3)
  /\ (forall v1 v2, v1 <= v2 ->
      calculateDepletionFactor v2 (7 / 10) <= calculateDepletionFactor v1 (7 / 10)).
Proof.
  split; [lra | ]. apply calculateDepletionFactor_range_monotone. lra.
Defined.

(** *** Zero bias *)

Lemma nextVd_R (voltage : R) (p : DiodeParams R) (Vd : R) :
  nextVd voltage p Vd
  = Vd - (Vd + Is p * Rs p * (exp (Vd / (n p * (26 / 1000))) - 1) - voltage)
         / (1 + Is p * Rs p * exp (Vd / (n p * (26 / 1000))) / (n p * (26 / 1000))).
Proof.
  unfold nextVd, THERMAL_VOLTAGE_VT. js_to_R.
  replace (1 * / 1) with 1 by lra. reflexivity.
Qed.

Lemma calculateCurrent_ideal_R (voltage : R) (p : DiodeParams R) :
  0 <= voltage ->
  calculateCurrent voltage p IDEAL
  = Is p * (exp (voltage / (n p * (26 / 1000))) - 1).
Proof.
  intros Hv. unfold calculateCurrent, THERMAL_VOLTAGE_VT. js_to_R.
  rewrite Rleb_true by lra.
  replace (1 * / 1) with 1 by lra. reflexivity.
Qed.

Lemma calculateCurrent_nonIdeal_R (voltage : R) (p : DiodeParams R) :
  0 <= voltage ->
  calculateCurrent voltage p NON_IDEAL
  = Is p * (exp ((if Rltb voltage (newton_loop 10 voltage p voltage)
                  then voltage else newton_loop 10 voltage p voltage)
                 / (n p * (26 / 1000))) - 1).
Proof.
  intros Hv. unfold calculateCurrent, THERMAL_VOLTAGE_VT. js_to_R.
  rewrite Rleb_true by lra.
  replace (1 * / 1) with 1 by lra. reflexivity.
Qed.




(** *** Newton's iteration on the junction equation

    With [a = Is * Rs >= 0] and [c = n * Vt > 0] the residual
    [y + a (exp (y / c) - 1) - v] is increasing and convex in [y], so each
    tangent lies below it. *)

Section NewtonReal.

Variables a c : R.
Hypothesis Ha : 0 <= a.
Hypothesis Hc : 0 < c.

Definition residual (v y : R) : R := y + a * (exp (y / c) - 1) - v.

Definition slope (y : R) : R := 1 + a * exp (y / c) / c.

Definition newton (v y : R) : R := y - residual v y / slope y.

Lemma slope_ge_1 (y : R) : 1 <= slope y.
Proof.
  unfold slope. pose proof (exp_pos (y / c)) as HE.
  assert (0 <= a * exp (y / c) / c); [ | lra].
  apply Rmult_le_pos; [ | left; apply Rinv_0_lt_compat, Hc].
  apply Rmult_le_pos; lra.
Qed.

Lemma exp_le_compat (x y : R) : x <= y -> exp x <= exp y.
Proof.
  intros [Hlt | ->]; [left; apply exp_increasing, Hlt | right; reflexivity].
Qed.

Lemma div_c_le (x y : R) : x <= y -> x / c <= y / c.
Proof.
  intros Hle. apply Rmult_le_compat_r; [left; apply Rinv_0_lt_compat, Hc | exact Hle].
Qed.


(** Convexity: the tangent at [y] lies below the residual. *)
Lemma residual_above_tangent (v y z : R) :
  residual v y + slope y * (z - y) <= residual v z.
Proof.
  assert (Hsplit : exp (z / c) = exp (y / c) * exp ((z - y) / c)).
  { rewrite <- exp_plus. f_equal. field. lra. }
  pose proof (exp_ineq1_le ((z - y) / c)) as Hlin.
  pose proof (exp_pos (y / c)) as HE.
  assert (Hprod : a * exp (y / c) * (1 + (z - y) / c) <= a * exp (z / c)).
  { rewrite Hsplit, <- Rmult_assoc.
    apply Rmult_le_compat_l; [apply Rmult_le_pos; lra | exact Hlin]. }
  unfold residual, slope.
  replace ((1 + a * exp (y / c) / c) * (z - y))
    with ((z - y) + a * exp (y / c) * (1 + (z - y) / c) - a * exp (y / c))
    by (field; lra).
  lra.
Qed.

Lemma newton_times_slope (v y : R) :
  slope y * (newton v y - y) = - residual v y.
Proof.
  pose proof (slope_ge_1 y). unfold newton. field. lra.
Qed.

(** After one step the iterate is to the right of the root. *)
Lemma newton_residual_nonneg (v y : R) : 0 <= residual v (newton v y).
Proof.
  pose proof (residual_above_tangent v y (newton v y)) as Htan.
  rewrite newton_times_slope in Htan. lra.
Qed.

Lemma newton_le (v y : R) : 0 <= residual v y -> newton v y <= y.
Proof.
  intros Hres. pose proof (slope_ge_1 y) as Hs.
  pose proof (newton_times_slope v y) as Heq. nra.
Qed.

Lemma newton_lt (v y : R) : 0 < residual v y -> newton v y < y.
Proof.
  intros Hres. pose proof (slope_ge_1 y) as Hs.
  pose proof (newton_times_slope v y) as Heq. nra.
Qed.


Lemma residual_start (v : R) : 0 <= v -> 0 <= residual v v.
Proof.
  intros Hv. unfold residual.
  assert (1 <= exp (v / c)).
  { rewrite <- exp_0. apply exp_le_compat.
    apply Rmult_le_pos; [exact Hv | left; apply Rinv_0_lt_compat, Hc]. }
  nra.
Qed.

Lemma residual_start_pos (v : R) : 0 < a -> 0 < v -> 0 < residual v v.
Proof.
  intros Hapos Hv. unfold residual.
  assert (1 < exp (v / c)).
  { rewrite <- exp_0. apply exp_increasing.
    apply Rmult_lt_0_compat; [exact Hv | apply Rinv_0_lt_compat, Hc]. }
  nra.
Qed.

(** Started at the applied voltage, the iterates stay to the right of the
    root and never rise. *)
Lemma iterates_decrease (v : R) (k : nat) :
  0 <= v ->
  0 <= residual v (Nat.iter k (newton v) v)
  /\ Nat.iter (S k) (newton v) v <= Nat.iter k (newton v) v
  /\ Nat.iter k (newton v) v <= v.
Proof.
  intros Hv. induction k as [ | k (Hres & Hstep & Hbound)].
  - simpl. pose proof (residual_start Hv) as Hres.
    repeat split; [exact Hres | apply newton_le, Hres | lra].
  - assert (Hres' : 0 <= residual v (Nat.iter (S k) (newton v) v))
      by (simpl; apply newton_residual_nonneg).
    repeat split; [exact Hres' | | lra].
    change (Nat.iter (S (S k)) (newton v) v)
      with (newton v (Nat.iter (S k) (newton v) v)).
    apply newton_le, Hres'.
Qed.

Lemma iterates_below_start (v : R) (k : nat) :
  0 < a -> 0 < v -> Nat.iter (S k) (newton v) v < v.
Proof.
  intros Hapos Hv. induction k as [ | k IH].
  - simpl. apply newton_lt, residual_start_pos; assumption.
  - destruct (iterates_decrease (S k) (Rlt_le _ _ Hv)) as (_ & Hstep & _). lra.
Qed.


End NewtonReal.

(** *** The source's loop is this iteration *)

Lemma nextVd_newton (voltage : R) (p : DiodeParams R) (Vd : R) :
  nextVd voltage p Vd = newton (Is p * Rs p) (n p * (26 / 1000)) voltage Vd.
Proof. rewrite nextVd_R. reflexivity. Qed.

Lemma iter_nextVd_newton (voltage : R) (p : DiodeParams R) (k : nat) (Vd : R) :
  Nat.iter k (nextVd voltage p) Vd
  = Nat.iter k (newton (Is p * Rs p) (n p * (26 / 1000)) voltage) Vd.
Proof.
  induction k as [ | k IH]; simpl; [reflexivity | ].
  rewrite IH. apply nextVd_newton.
Qed.

Lemma valid_coefficients (p : DiodeParams R) :
  valid_params p -> 0 <= Is p * Rs p /\ 0 < n p * (26 / 1000).
Proof. intros (HIs & Hn & HRs). split; nra. Qed.

Lemma newton_loop_iterate (voltage : R) (p : DiodeParams R) :
  newton_loop 10 voltage p voltage
  = Nat.iter (newton_passes 10 voltage p voltage)
      (newton (Is p * Rs p) (n p * (26 / 1000)) voltage) voltage.
Proof. rewrite newton_loop_passes. apply iter_nextVd_newton. Qed.

(** The loop never ends above the applied voltage, so the clamp after it
    changes nothing. *)
Lemma newton_loop_le_voltage (voltage : R) (p : DiodeParams R) :
  valid_params p -> 0 <= voltage -> newton_loop 10 voltage p voltage <= voltage.
Proof.
  intros Hvalid Hv. destruct (valid_coefficients Hvalid) as [Ha Hc].
  rewrite newton_loop_iterate.
  apply (iterates_decrease Ha Hc _ Hv).
Qed.

Lemma calculateCurrent_nonIdeal_solved (voltage : R) (p : DiodeParams R) :
  valid_params p -> 0 <= voltage ->
  calculateCurrent voltage p NON_IDEAL
  = Is p * (exp (newton_loop 10 voltage p voltage / (n p * (26 / 1000))) - 1).
Proof.
  intros Hvalid Hv. rewrite calculateCurrent_nonIdeal_R by exact Hv.
  now rewrite Rltb_false by (apply newton_loop_le_voltage; assumption).
Qed.

(** With a series resistance the solved junction voltage is strictly below
    the applied voltage, and so is the current below the ideal one. *)
Lemma nonIdeal_below_ideal (voltage : R) (p : DiodeParams R) :
  valid_params p -> 0 < Rs p -> 0 < voltage ->
  calculateCurrent voltage p NON_IDEAL < calculateCurrent voltage p IDEAL.
Proof.
  intros Hvalid HRs Hv. destruct (valid_coefficients Hvalid) as [Ha Hc].
  rewrite calculateCurrent_nonIdeal_solved by (try exact Hvalid; lra).
  rewrite calculateCurrent_ideal_R by lra.
  destruct Hvalid as (HIs & Hn & _).
  assert (Hbelow : newton_loop 10 voltage p voltage < voltage).
  { rewrite newton_loop_iterate.
    destruct (newton_passes_bounds 9 voltage p voltage) as [_ Hpos].
    destruct (newton_passes 10 voltage p voltage) as [ | k]; [lia | ].
    apply (iterates_below_start Ha Hc); [nra | exact Hv]. }
  apply Rmult_lt_compat_l; [exact HIs | ].
  apply Rplus_lt_compat_r, exp_increasing.
  apply Rmult_lt_compat_r; [apply Rinv_0_lt_compat, Hc | exact Hbelow].
Qed.

Lemma moderate_valid : valid_params (getDiodeParams MODERATE).
Proof. unfold valid_params, getDiodeParams; cbn [Is n Rs]. js_to_R. lra. Qed.

(** C8.  Moderate doping is [{Is = 1e-11, n = 1.2, Vbi = 0.70, Rs = 10,
    breakdownVoltage = -20}]; at 0.7 V the non-ideal current is strictly
    below the ideal one, and the ideal one is
    [1e-11 * (exp(0.7 / (1.2 * 0.026)) - 1)]. *)
Theorem moderate_nonIdeal_below_ideal_at_0_7 :
  (Is (getDiodeParams MODERATE) = 1 / 100000000000
   /\ n (getDiodeParams MODERATE) = 12 / 10
   /\ Vbi (getDiodeParams MODERATE) = 70 / 100
   /\ Rs (getDiodeParams MODERATE) = 10
   /\ breakdownVoltage (getDiodeParams MODERATE) = - 20)
  /\ calculateCurrent (7 / 10) (getDiodeParams MODERATE) NON_IDEAL
     < calculateCurrent (7 / 10) (getDiodeParams MODERATE) IDEAL
  /\ calculateCurrent (7 / 10) (getDiodeParams MODERATE) IDEAL
     = 1 / 100000000000 * (exp (7 / 10 / (12 / 10 * (26 / 1000))) - 1).
Proof.
  split; [ | split].
  - unfold getDiodeParams; cbn [Is n Vbi Rs breakdownVoltage]. js_to_R.
    repeat split; lra.
  - apply nonIdeal_below_ideal; [apply moderate_valid | | lra].
    unfold getDiodeParams; cbn [Rs]. js_to_R. lra.
  - rewrite calculateCurrent_ideal_R by lra.
    unfold getDiodeParams; cbn [Is n]. js_to_R. reflexivity.
Qed.

(** *** Monotonicity of the forward solve *)


(** *** Second-order bounds on the exponential *)











(** *** The early exit of the loop breaks monotonicity

    A diode with [Is * Rs = 1] and [n = 1].  At 10.26 microvolts the first
    Newton step is shorter than 1e-5 and the loop is left after one pass;
    at 10.27 microvolts it is not, a second pass is made, and the junction
    voltage it reaches is lower than the one kept at 10.26 microvolts. *)

Definition stiff_params : DiodeParams R :=
  {| Is := 1 / 1000; n := 1; Vbi := 7 / 10; Rs := 1000; breakdownVoltage := - 20 |}.




















End RealPhysics.

(** ** Finiteness, and the other results, evaluated in binary64 *)

Module EvaluationBinary64.

Import Floats.
Import Binary64 Binary64Number.
Local Open Scope float_scope.

(** The invariants of the specification, read in binary64. *)
Definition valid_params (p : DiodeParams float) : bool :=
  (0 <? Is p) && (1 <=? n p) && (0 <? Vbi p) && (0 <=? Rs p)
  && (breakdownVoltage p <? 0)
  && forallb is_finite [Is p; n p; Vbi p; Rs p; breakdownVoltage p].

(** The voltages the slider of the application supplies: -5.00, -4.95,
    ..., 5.00.  Every second one is a voltage of the sweep. *)
Definition slider_voltages : list float :=
  map (fun k => lit ((Z.of_nat k * 5 - 500) # 100)) (seq 0 201).






(** The non-ideal branches at the same magnitude: NaN forward (the Newton
    step divides Infinity by Infinity), -Infinity in reverse. *)
Lemma calculateCurrent_nonIdeal_not_finite :
  is_nan (calculateCurrent (lit (10 ^ 308 # 1)) (getDiodeParams MODERATE) NON_IDEAL) = true
  /\ calculateCurrent (lit (- 10 ^ 308 # 1)) (getDiodeParams MODERATE) NON_IDEAL
     = neg_infinity.
Proof. vm_compute. repeat split. Qed.



(** *** The real-arithmetic results, evaluated in binary64 *)

(** Zero bias (C5): both modes return 0 for the three parameter records,
    at +0 and at -0. *)
Lemma zero_bias_binary64 :
  forallb (fun d =>
    forallb (fun x =>
      forallb (fun mode => calculateCurrent x (getDiodeParams d) mode =? 0)
              [IDEAL; NON_IDEAL])
      [0; - 0])
    [LIGHT; MODERATE; HEAVY] = true.
Proof. vm_compute. reflexivity. Qed.

(** The depletion factor (C6) along the slider, for the three built-in
    potentials: within [0.1, 3.0] and never rising. *)
Fixpoint non_increasing (l : list float) : bool :=
  match l with
  | x :: (y :: _) as rest => (y <=? x) && non_increasing rest
  | _ => true
  end.

Lemma depletion_factor_binary64 :
  forallb (fun d =>
    let factors :=
      map (fun x => calculateDepletionFactor x (Vbi (getDiodeParams d)))
          slider_voltages in
    forallb (fun w => (lit (1 # 10) <=? w) && (w <=? lit 3)) factors
    && non_increasing factors)
    [LIGHT; MODERATE; HEAVY] = true.
Proof. vm_compute. reflexivity. Qed.

(** Moderate doping at 0.7 V (C8): the non-ideal current is below the
    ideal one. *)
Lemma moderate_at_0_7_binary64 :
  (calculateCurrent (lit (7 # 10)) (getDiodeParams MODERATE) NON_IDEAL
   <? calculateCurrent (lit (7 # 10)) (getDiodeParams MODERATE) IDEAL) = true.
Proof. vm_compute. reflexivity. Qed.

(** The early exit (C7): the diode of the real-arithmetic counterexample
    loses current between 10.26 and 10.27 microvolts in binary64 too, with
    one pass of the loop at the lower voltage and two at the higher. *)
Definition stiff_params : DiodeParams float :=
  {| Is := lit (1 # 1000); n := lit 1; Vbi := lit (7 # 10); Rs := lit 1000;
     breakdownVoltage := (- lit 20)%js |}.

Lemma forward_current_decreases_binary64 :
  valid_params stiff_params = true
  /\ (lit (1026 # 100000000) <? lit (1027 # 100000000)) = true
  /\ (calculateCurrent (lit (1027 # 100000000)) stiff_params NON_IDEAL
      <? calculateCurrent (lit (1026 # 100000000)) stiff_params NON_IDEAL) = true
  /\ newton_passes 10 (lit (1026 # 100000000)) stiff_params (lit (1026 # 100000000))
     = 1%nat
  /\ newton_passes 10 (lit (1027 # 100000000)) stiff_params (lit (1027 # 100000000))
     = 2%nat.
Proof. vm_compute. repeat split. Qed.

End EvaluationBinary64.

(* ================================================================== *)
(** * Part III.  The callers of the solver                             *)
(* ================================================================== *)

(** The components compute a few numbers and labels from the solver's
    results before they draw.  These computations are embedded here, over
    the same interface of number operations; functions of the host that
    the interface lacks ([Math.log10], [Math.sin], [Math.cos], the
    remainder [%]) and the draws of [Math.random()] are taken as
    arguments. *)

From Stdlib Require String.
Import String.StringSyntax.

(** [x === y] on numbers: true exactly when [x <= y] and [y <= x]
    (false when either is NaN, true for zeros of either sign). *)
Definition strict_eq {num : Type} {ops : JsNumber num} (x y : num) : bool :=
  ((x <=? y)%js && (y <=? x)%js)%bool.

(** [s.includes(sub)]. *)
Definition includes (s sub : String.string) : bool :=
  match String.index 0 sub s with
  | Some _ => true
  | None => false
  end.

Section Callers.

Context {num : Type} {ops : JsNumber num}.
Local Open Scope js_scope.
Local Open Scope string_scope.

(** ** App.tsx: the bias label *)

Definition biasType (voltage : num) (params : DiodeParams num) : String.string :=
  if voltage >? lit (5 # 100) then "Forward Bias"
  else if voltage <? breakdownVoltage params + lit (5 # 10) then "Breakdown Region"
  else if voltage <? - lit (5 # 100) then "Reverse Bias"
  else "Unbiased".

(** ** ExplanationPanel.tsx *)


Definition isBreakdown (voltage : num) (params : DiodeParams num) : bool :=
  voltage <=? breakdownVoltage params.

(** The number behind the "Potential Barrier" line, before [toFixed(2)]. *)
Definition potentialBarrier (voltage : num) (params : DiodeParams num) : num :=
  Vbi params - (if voltage >? lit 0 then voltage else lit 0).

(** The four conditional blocks of the panel, in the order of the source:
    [biasType === 'Unbiased'], [biasType.includes('Forward')],
    [biasType.includes('Reverse') && !isBreakdown],
    [biasType.includes('Breakdown') || isBreakdown]. *)
Definition panelBlocks (voltage : num) (params : DiodeParams num) : list bool :=
  let label := biasType voltage params in
  let breakdown := isBreakdown voltage params in
  [ String.eqb label "Unbiased";
    includes label "Forward";
    includes label "Reverse" && negb breakdown;
    includes label "Breakdown" || breakdown ]%bool.

(** ** BandDiagram.tsx *)

Definition barrierHeight (voltage Vbi : num) : num :=
  Math_max (lit (1 # 10)) (Vbi - voltage).

Definition stepHeight (voltage : num) : num :=
  Math_max (lit 5) (lit 50 - voltage * lit 20).

(** The four levels of the two paths, in the order conduction band left,
    conduction band right, valence band left, valence band right. *)
Definition bandLevels (voltage : num) : list num :=
  [ lit 30 - stepHeight voltage / lit 2; lit 30 + stepHeight voltage / lit 2;
    lit 50 - stepHeight voltage / lit 2; lit 50 + stepHeight voltage / lit 2 ].

(** ** CircuitView.tsx *)

Definition isReverse (voltage : num) : bool := voltage <? lit 0.

Definition isForward (voltage : num) : bool := voltage >? lit 0.

Definition currentMag (current : num) : num := Math_abs (current * lit 1000).

Definition animationDuration (Math_log10 : num -> num) (current : num) : num :=
  if currentMag current <? lit (1 # 100) then lit 0
  else Math_max (lit (5 # 10)) (lit 3 - Math_log10 (currentMag current + lit 1)).

(** The moving dot is drawn when [currentMag > 0.001]; this is the number
    in its [dur] attribute and its radius. *)
Definition motionShown (current : num) : bool := currentMag current >? lit (1 # 1000).

Definition motionDur (Math_log10 : num -> num) (current : num) : num :=
  if strict_eq (animationDuration Math_log10 current) (lit 0) then lit 0
  else Math_max (lit (2 # 10)) (lit 1 / Math_sqrt (currentMag current)).

Definition dotRadius (current : num) : num :=
  lit 3 + Math_min (lit 3) (currentMag current / lit 50).

(** ** IVGraph.tsx: the rows handed to the chart

    [idealPoints.map((p, i) => ({ v: p.v, ideal: p.i, nonIdeal:
    nonIdealPoints[i].i }))].  Reading [.i] of a missing element throws,
    which the model answers with [None]. *)

Record ChartRow : Type := mkChartRow {
  row_v : num;
  row_ideal : num;
  row_nonIdeal : num
}.

Fixpoint chartRows_from (k : nat) (idealPoints nonIdealPoints : list (CurvePoint num))
    : option (list ChartRow) :=
  match idealPoints with
  | [] => Some []
  | p :: rest =>
      match nth_error nonIdealPoints k with
      | None => None
      | Some q =>
          option_map
            (cons {| row_v := v p; row_ideal := i p; row_nonIdeal := i q |})
            (chartRows_from (S k) rest nonIdealPoints)
      end
  end.

Definition chartRows (params : DiodeParams num) : option (list ChartRow) :=
  match generateCurveData params with
  | Some (idealPoints, nonIdealPoints) => chartRows_from 0 idealPoints nonIdealPoints
  | None => None
  end.

(** ** DiodeVisualization.tsx: the static carrier dots *)

Inductive Region : Type := p_region | n_region.

(** [generateCarriers]: the centre of dot [k] of a region, with
    [totalWidth = 600], [height = 200], [halfWidth = totalWidth / 2]. *)
Definition carrierPosition (Math_sin Math_cos : num -> num) (rem : num -> num -> num)
    (type : Region) (k : nat) : num * num :=
  let totalWidth := lit 600 in
  let height := lit 200 in
  let halfWidth := totalWidth / lit 2 in
  let startX := match type with p_region => lit 20 | n_region => halfWidth + lit 20 end in
  let endX :=
    match type with p_region => halfWidth - lit 20 | n_region => totalWidth - lit 20 end in
  let index := lit (Z.of_nat k # 1) in
  let r1 := Math_sin (index * lit (129898 # 10000)) * lit (437585453 # 10000) in
  let r2 := Math_cos (index * lit (129898 # 10000)) * lit (437585453 # 10000) in
  (startX + rem (Math_abs r1) (endX - startX),
   lit 20 + rem (Math_abs r2) (height - lit 40)).

End Callers.

Arguments ChartRow : clear implicits.

(** ** DiodeCanvas.tsx *)

Module Canvas.

Inductive ParticleType : Type := hole | electron.

Record Particle (num : Type) : Type := mkParticle {
  id : nat;
  x : num;
  y : num;
  vx : num;
  vy : num;
  type : ParticleType
}.

Section Render.

Context {num : Type} {ops : JsNumber num}.
Local Open Scope js_scope.
Local Open Scope string_scope.

Definition WIDTH : num := lit 800.

Definition HEIGHT : num := lit 300.

Definition CENTER_X : num := WIDTH / lit 2.

Definition BASE_DEPLETION_WIDTH : num := lit 120.

(** The value of the [AnimationSpeed] enumeration. *)
Inductive AnimationSpeed : Type := VERY_SLOW | SLOW | NORMAL | FAST.

Definition speedValue (speed : AnimationSpeed) : num :=
  match speed with
  | VERY_SLOW => lit (2 # 10)
  | SLOW => lit (5 # 10)
  | NORMAL => lit 1
  | FAST => lit (25 # 10)
  end.

Definition NUM_PARTICLES : nat := 120.

(** One element of the array built by [initParticles]; [r1] to [r4] are
    the draws of [Math.random()] in the order of the object literal. *)
Definition newParticle (kind : ParticleType) (pid : nat) (r1 r2 r3 r4 : num)
    : Particle num :=
  {| id := pid;
     x := match kind with
          | hole => r1 * (CENTER_X - lit 10)
          | electron => CENTER_X + lit 10 + r1 * (CENTER_X - lit 20)
          end;
     y := r2 * HEIGHT;
     vx := (r3 - lit (5 # 10)) * lit (8 # 10);
     vy := (r4 - lit (5 # 10)) * lit (8 # 10);
     type := kind |}.

(** One [for] loop of [initParticles]: [count] passes, each pushing one
    particle and advancing [pid].  [random k] is draw number [k] of
    [Math.random()] since the first; a particle takes four draws, so the
    particle numbered [pid] takes the draws [4 * pid] to [4 * pid + 3]. *)
Fixpoint pushParticles (count : nat) (kind : ParticleType) (random : nat -> num)
    (pid : nat) (p : list (Particle num)) : list (Particle num) * nat :=
  match count with
  | O => (p, pid)
  | S count' =>
      pushParticles count' kind random (S pid)
        (p ++ [newParticle kind pid (random (4 * pid)%nat) (random (4 * pid + 1)%nat)
                 (random (4 * pid + 2)%nat) (random (4 * pid + 3)%nat)])
  end.

Definition initParticles (random : nat -> num) : list (Particle num) :=
  let '(p, pid) := pushParticles NUM_PARTICLES hole random 0 [] in
  fst (pushParticles NUM_PARTICLES electron random pid p).

Definition currentDepletionWidth (voltage : num) (params : DiodeParams num) : num :=
  BASE_DEPLETION_WIDTH * calculateDepletionFactor voltage (Vbi params).

Definition depletionLeft (voltage : num) (params : DiodeParams num) : num :=
  CENTER_X - currentDepletionWidth voltage params / lit 2.

Definition depletionRight (voltage : num) (params : DiodeParams num) : num :=
  CENTER_X + currentDepletionWidth voltage params / lit 2.

Definition biasFieldStrength (voltage : num) : num := voltage * lit (15 # 100).

Definition effectiveBarrierHeight (voltage : num) (params : DiodeParams num) : num :=
  Math_max (lit 0) (Vbi params - voltage).

(** The body of [particlesRef.current.forEach(p => ...)] for one particle
    and one frame.  At most one of the two calls of [Math.random()] in a
    branch is reached in a frame (a particle set back to the edge of the
    depletion region is not beyond the canvas); [rBounce] is the draw of
    the barrier test and [rWrap] the draw of the wrap, when reached. *)
Definition updateParticle (voltage : num) (params : DiodeParams num) (speed : num)
    (rBounce rWrap : num) (p : Particle num) : Particle num :=
  let x1 := x p + vx p * speed in
  let y1 := y p + vy p * speed in
  let vy1 := if ((y1 <? lit 0) || (y1 >? HEIGHT))%bool then vy p * - lit 1 else vy p in
  match type p with
  | hole =>
      let x2 := x1 + biasFieldStrength voltage * speed in
      let bounced :=
        ((x2 >? depletionLeft voltage params) && (x2 <? CENTER_X)
         && (rBounce * lit 2 <? effectiveBarrierHeight voltage params))%bool in
      let vx3 := if bounced then - Math_abs (vx p) else vx p in
      let x3 := if bounced then depletionLeft voltage params - lit 1 else x2 in
      let wrapped := x3 >? WIDTH in
      let x4 := if wrapped then lit 0 else x3 in
      let y4 := if wrapped then rWrap * HEIGHT else y1 in
      let x5 := if x4 <? lit 0 then WIDTH else x4 in
      {| id := id p; x := x5; y := y4; vx := vx3; vy := vy1; type := hole |}
  | electron =>
      let x2 := x1 - biasFieldStrength voltage * speed in
      let bounced :=
        ((x2 <? depletionRight voltage params) && (x2 >? CENTER_X)
         && (rBounce * lit 2 <? effectiveBarrierHeight voltage params))%bool in
      let vx3 := if bounced then Math_abs (vx p) else vx p in
      let x3 := if bounced then depletionRight voltage params + lit 1 else x2 in
      let wrapped := x3 <? lit 0 in
      let x4 := if wrapped then WIDTH else x3 in
      let y4 := if wrapped then rWrap * HEIGHT else y1 in
      let x5 := if x4 >? WIDTH then lit 0 else x4 in
      {| id := id p; x := x5; y := y4; vx := vx3; vy := vy1; type := electron |}
  end.

(** The label of the overlay drawn over the junction, if any. *)
Definition overlayLabel (voltage : num) : option String.string :=
  let currentMag := Math_abs voltage in
  if currentMag >? lit (2 # 10) then
    if voltage >? lit 0 then Some "Diffusion Current"
    else if voltage <? - lit (1 # 10) then
      if voltage >? - lit 4 then Some "Drift (Minority)" else Some "Breakdown!"
    else None
  else None.

(** The label in the header of the card. *)
Definition headerLabel (voltage : num) : String.string :=
  if strict_eq voltage (lit 0) then "Equilibrium"
  else if voltage >? lit 0 then "Forward Bias"
  else "Reverse Bias".

(** The four conditional captions of the footer, in the order of the
    source. *)
Definition footerCaptions (voltage : num) (params : DiodeParams num) : list bool :=
  [ strict_eq voltage (lit 0);
    voltage >? lit 0;
    (voltage <? lit 0) && (voltage >? breakdownVoltage params);
    voltage <=? breakdownVoltage params ]%bool.


End Render.

End Canvas.

(* ================================================================== *)
(** * Part IV.  Further properties                                     *)
(* ================================================================== *)

(** ** The solver, over the reals *)

Module RealSolver.

Import RealNumber RealPhysics.
Local Open Scope R_scope.

(** *** The parameter table *)

(** X1.  Every record of the table keeps the invariants of
    [DiodeParams], and heavier doping has the lower series resistance
    and the breakdown voltage nearer to zero. *)
Theorem getDiodeParams_invariants :
  (forall doping : DopingLevel,
     let p := getDiodeParams doping in
     0 < Is p /\ 1 <= n p /\ 0 < Vbi p /\ 0 <= Rs p /\ breakdownVoltage p < 0)
  /\ Rs (getDiodeParams HEAVY) < Rs (getDiodeParams MODERATE)
     < Rs (getDiodeParams LIGHT)
  /\ breakdownVoltage (getDiodeParams LIGHT)
     < breakdownVoltage (getDiodeParams MODERATE)
     < breakdownVoltage (getDiodeParams HEAVY).
Proof.
  split; [intros [ | | ] | ];
    unfold getDiodeParams; cbn [Is n Vbi Rs breakdownVoltage]; js_to_R;
    repeat split; lra.
Qed.

(** *** Forward bias *)













(** *** Reverse bias and the sign of the current *)

Lemma calculateCurrent_ideal_reverse_R (voltage : R) (p : DiodeParams R) :
  voltage < 0 -> calculateCurrent voltage p IDEAL = - Is p.
Proof.
  intros Hv. unfold calculateCurrent. js_to_R. now rewrite Rleb_false by lra.
Qed.

(** The breakdown term of the reverse branch. *)
Definition breakdownTerm (voltage : R) (p : DiodeParams R) : R :=
  if Rltb voltage (breakdownVoltage p)
  then - Is p * (exp ((breakdownVoltage p - voltage) * 2) - 1) * 1000
  else 0.

Lemma calculateCurrent_nonIdeal_reverse_R (voltage : R) (p : DiodeParams R) :
  voltage < 0 ->
  calculateCurrent voltage p NON_IDEAL
  = Is p * (exp (voltage / (n p * (26 / 1000))) - 1) + voltage * (1 / 100000000)
    + breakdownTerm voltage p.
Proof.
  intros Hv. unfold calculateCurrent, breakdownTerm, THERMAL_VOLTAGE_VT. js_to_R.
  rewrite Rleb_false by lra.
  replace (1 * / 1) with 1 by lra. replace (2 * / 1) with 2 by lra.
  replace (1000 * / 1) with 1000 by lra. replace (0 * / 1) with 0 by lra.
  reflexivity.
Qed.

Lemma breakdownTerm_nonpos (voltage : R) (p : DiodeParams R) :
  0 < Is p -> breakdownTerm voltage p <= 0.
Proof.
  intros HIs. unfold breakdownTerm, Rltb.
  destruct (Rlt_dec voltage (breakdownVoltage p)) as [Hlt | _]; [ | lra].
  assert (1 <= exp ((breakdownVoltage p - voltage) * 2)).
  { rewrite <- exp_0. apply exp_le_compat. lra. }
  nra.
Qed.

Lemma breakdownTerm_monotone (v1 v2 : R) (p : DiodeParams R) :
  0 < Is p -> v1 <= v2 -> breakdownTerm v1 p <= breakdownTerm v2 p.
Proof.
  intros HIs Hle.
  pose proof (breakdownTerm_nonpos v1 p HIs) as Hneg.
  unfold breakdownTerm, Rltb in *.
  destruct (Rlt_dec v2 (breakdownVoltage p)) as [H2 | H2].
  - destruct (Rlt_dec v1 (breakdownVoltage p)) as [H1 | H1]; [ | lra].
    assert (exp ((breakdownVoltage p - v2) * 2) <= exp ((breakdownVoltage p - v1) * 2))
      by (apply exp_le_compat; lra).
    nra.
  - exact Hneg.
Qed.




(** X6.  Below 0 V the non-ideal current does not decrease when the
    voltage rises, across the breakdown knee included. *)
Theorem reverse_current_monotone (v1 v2 : R) (p : DiodeParams R) :
  valid_params p -> v1 <= v2 -> v2 < 0 ->
  calculateCurrent v1 p NON_IDEAL <= calculateCurrent v2 p NON_IDEAL.
Proof.
  intros Hvalid Hle Hneg. destruct (valid_coefficients Hvalid) as [_ Hc].
  destruct Hvalid as (HIs & _).
  rewrite !calculateCurrent_nonIdeal_reverse_R by lra.
  pose proof (breakdownTerm_monotone p HIs Hle) as Hbd.
  pose proof (exp_le_compat (div_c_le Hc Hle)) as HE.
  nra.
Qed.

Lemma reverse_current_monotone_at_heavy :
  (valid_params (getDiodeParams HEAVY) /\ - 5 <= - 4 /\ - 4 < 0)
  /\ calculateCurrent (- 5) (getDiodeParams HEAVY) NON_IDEAL
     <= calculateCurrent (- 4) (getDiodeParams HEAVY) NON_IDEAL.
Proof.
  assert (Hvalid : valid_params (getDiodeParams HEAVY)).
  { unfold valid_params, getDiodeParams; cbn [Is n Rs]. js_to_R. lra. }
  split; [split; [exact Hvalid | lra] | ].
  apply reverse_current_monotone; [exact Hvalid | lra | lra].
Defined.

(** X7.  The ideal current does not decrease when the voltage rises,
    over the whole line. *)
Theorem ideal_current_monotone (v1 v2 : R) (p : DiodeParams R) :
  valid_params p -> v1 <= v2 ->
  calculateCurrent v1 p IDEAL <= calculateCurrent v2 p IDEAL.
Proof.
  intros Hvalid Hle. destruct (valid_coefficients Hvalid) as [_ Hc].
  destruct Hvalid as (HIs & _).
  assert (Hone : forall y, 0 <= y -> 1 <= exp (y / (n p * (26 / 1000)))).
  { intros y Hy. rewrite <- exp_0. apply exp_le_compat.
    apply Rmult_le_pos; [exact Hy | left; apply Rinv_0_lt_compat, Hc]. }
  destruct (Rle_lt_dec 0 v1) as [H1 | H1]; destruct (Rle_lt_dec 0 v2) as [H2 | H2];
    try lra.
  - rewrite !calculateCurrent_ideal_R by lra.
    pose proof (exp_le_compat (div_c_le Hc Hle)) as HE. nra.
  - rewrite calculateCurrent_ideal_reverse_R, calculateCurrent_ideal_R by lra.
    pose proof (Hone v2 H2). nra.
  - rewrite !calculateCurrent_ideal_reverse_R by lra. lra.
Qed.

Lemma ideal_current_monotone_at_moderate :
  (valid_params (getDiodeParams MODERATE) /\ - 1 <= 1)
  /\ calculateCurrent (- 1) (getDiodeParams MODERATE) IDEAL
     <= calculateCurrent 1 (getDiodeParams MODERATE) IDEAL.
Proof.
  split; [split; [exact moderate_valid | lra] | ].
  apply ideal_current_monotone; [exact moderate_valid | lra].
Defined.

(** *** Landmarks of the depletion factor *)






End RealSolver.

(** ** The labels of the components, over the reals *)

Module RealLabels.

Import RealNumber RealPhysics RealSolver.
Local Open Scope R_scope.
Local Open Scope string_scope.

(** The label of [App.tsx] with the condition under which it is chosen. *)
Lemma biasType_cases (voltage : R) (p : DiodeParams R) :
  (biasType voltage p = "Forward Bias" /\ 5 / 100 < voltage)
  \/ (biasType voltage p = "Breakdown Region"
      /\ voltage <= 5 / 100 /\ voltage < breakdownVoltage p + 5 / 10)
  \/ (biasType voltage p = "Reverse Bias"
      /\ breakdownVoltage p + 5 / 10 <= voltage /\ voltage < - (5 / 100))
  \/ (biasType voltage p = "Unbiased"
      /\ breakdownVoltage p + 5 / 10 <= voltage /\ - (5 / 100) <= voltage <= 5 / 100).
Proof.
  unfold biasType. js_to_R. unfold Rltb.
  destruct (Rlt_dec (5 * / 100) voltage) as [H1 | H1]; [left; split; [reflexivity | lra] | ].
  destruct (Rlt_dec voltage (breakdownVoltage p + 5 * / 10)) as [H2 | H2];
    [right; left; repeat split; [lra | lra] | ].
  destruct (Rlt_dec voltage (- (5 * / 100))) as [H3 | H3];
    [right; right; left; repeat split; lra | ].
  right; right; right. repeat split; lra.
Qed.

Lemma isBreakdown_R (voltage : R) (p : DiodeParams R) :
  isBreakdown voltage p = Rleb voltage (breakdownVoltage p).
Proof. reflexivity. Qed.

(** X9.  Whenever the reverse branch of the solver adds breakdown
    current, the application shows the label "Breakdown Region"; under
    any other label the reverse current is leakage plus Shockley term
    alone. At 0 V the label is "Unbiased" exactly for breakdown
    voltages of -0.5 V or below. *)
Theorem bias_label_and_breakdown_current (voltage : R) (p : DiodeParams R) :
  breakdownVoltage p < 0 ->
  (voltage < breakdownVoltage p -> biasType voltage p = "Breakdown Region")
  /\ (voltage < 0 -> biasType voltage p <> "Breakdown Region" ->
      calculateCurrent voltage p NON_IDEAL
      = Is p * (exp (voltage / (n p * (26 / 1000))) - 1) + voltage * (1 / 100000000))
  /\ (biasType 0 p = "Unbiased" <-> breakdownVoltage p <= - (1 / 2)).
Proof.
  intros Hbv. split; [ | split].
  - intros Hv.
    destruct (biasType_cases voltage p) as [[_ H] | [[Heq _] | [[_ H] | [_ H]]]];
      try lra. exact Heq.
  - intros Hv Hlabel.
    rewrite calculateCurrent_nonIdeal_reverse_R by exact Hv.
    unfold breakdownTerm.
    destruct (biasType_cases voltage p) as [[_ H] | [[Heq _] | [[_ H] | [_ H]]]];
      try contradiction; rewrite Rltb_false by lra; lra.
  - split.
    + intros Heq.
      destruct (biasType_cases 0 p) as [[_ H] | [[Heq' _] | [[_ H] | [_ H]]]];
        try lra. rewrite Heq in Heq'. discriminate.
    + intros Hle.
      destruct (biasType_cases 0 p) as [[_ H] | [[_ H] | [[_ H] | [Heq _]]]];
        try lra. exact Heq.
Qed.

Lemma bias_label_and_breakdown_current_at_heavy :
  breakdownVoltage (getDiodeParams HEAVY) < 0
  /\ (- 5 < breakdownVoltage (getDiodeParams HEAVY) ->
      biasType (- 5) (getDiodeParams HEAVY) = "Breakdown Region")
  /\ (- 5 < 0 -> biasType (- 5) (getDiodeParams HEAVY) <> "Breakdown Region" ->
      calculateCurrent (- 5) (getDiodeParams HEAVY) NON_IDEAL
      = Is (getDiodeParams HEAVY)
        * (exp (- 5 / (n (getDiodeParams HEAVY) * (26 / 1000))) - 1)
        + - 5 * (1 / 100000000))
  /\ (biasType 0 (getDiodeParams HEAVY) = "Unbiased"
      <-> breakdownVoltage (getDiodeParams HEAVY) <= - (1 / 2)).
Proof.
  assert (Hbv : breakdownVoltage (getDiodeParams HEAVY) < 0).
  { unfold getDiodeParams; cbn [breakdownVoltage]. js_to_R. lra. }
  split; [exact Hbv | ]. apply bias_label_and_breakdown_current. exact Hbv.
Defined.

(** X10.  With a negative breakdown voltage the explanation panel
    shows exactly one of its four blocks, the one named by the bias
    label; the flag [isBreakdown] never changes which. *)
Theorem panel_shows_one_block (voltage : R) (p : DiodeParams R) :
  breakdownVoltage p < 0 ->
  panelBlocks voltage p
  = map (String.eqb (biasType voltage p))
        ["Unbiased"; "Forward Bias"; "Reverse Bias"; "Breakdown Region"]
  /\ count_occ Bool.bool_dec (panelBlocks voltage p) true = 1%nat.
Proof.
  intros Hbv. unfold panelBlocks. rewrite isBreakdown_R.
  destruct (biasType_cases voltage p)
    as [[-> H] | [[-> H] | [[-> H] | [-> H]]]].
  - rewrite Rleb_false by lra. split; reflexivity.
  - destruct (Rleb voltage (breakdownVoltage p)); split; reflexivity.
  - rewrite Rleb_false by lra. split; reflexivity.
  - rewrite Rleb_false by lra. split; reflexivity.
Qed.

Lemma panel_shows_one_block_at_moderate :
  breakdownVoltage (getDiodeParams MODERATE) < 0
  /\ panelBlocks (- 1) (getDiodeParams MODERATE)
     = map (String.eqb (biasType (- 1) (getDiodeParams MODERATE)))
           ["Unbiased"; "Forward Bias"; "Reverse Bias"; "Breakdown Region"]
  /\ count_occ Bool.bool_dec (panelBlocks (- 1) (getDiodeParams MODERATE)) true = 1%nat.
Proof.
  assert (Hbv : breakdownVoltage (getDiodeParams MODERATE) < 0).
  { unfold getDiodeParams; cbn [breakdownVoltage]. js_to_R. lra. }
  split; [exact Hbv | ]. apply panel_shows_one_block. exact Hbv.
Defined.



End RealLabels.

(** ** The canvas, over the reals *)

Module RealCanvas.

Import RealNumber RealPhysics RealSolver.
Local Open Scope R_scope.
Local Open Scope string_scope.

Lemma Rltb_true_inv (a b : R) : Rltb a b = true -> a < b.
Proof. unfold Rltb. destruct (Rlt_dec a b); [trivial | discriminate]. Qed.

Lemma Rltb_false_inv (a b : R) : Rltb a b = false -> b <= a.
Proof. unfold Rltb. destruct (Rlt_dec a b); [discriminate | lra]. Qed.

Lemma depletion_factor_range (voltage Vbi : R) :
  1 / 10 <= calculateDepletionFactor voltage Vbi <= 3.
Proof.
  rewrite calculateDepletionFactor_R. split.
  - apply Rmax_l.
  - apply Rmax_lub; [lra | apply Rmin_l].
Qed.

Lemma depletionLeft_R (voltage : R) (p : DiodeParams R) :
  Canvas.depletionLeft voltage p
  = 400 - 60 * calculateDepletionFactor voltage (Vbi p).
Proof.
  unfold Canvas.depletionLeft, Canvas.currentDepletionWidth, Canvas.CENTER_X,
    Canvas.WIDTH, Canvas.BASE_DEPLETION_WIDTH.
  js_to_R. field.
Qed.

Lemma depletionRight_R (voltage : R) (p : DiodeParams R) :
  Canvas.depletionRight voltage p
  = 400 + 60 * calculateDepletionFactor voltage (Vbi p).
Proof.
  unfold Canvas.depletionRight, Canvas.currentDepletionWidth, Canvas.CENTER_X,
    Canvas.WIDTH, Canvas.BASE_DEPLETION_WIDTH.
  js_to_R. field.
Qed.

Lemma depletion_edges_range (voltage : R) (p : DiodeParams R) :
  220 <= Canvas.depletionLeft voltage p <= 394
  /\ 406 <= Canvas.depletionRight voltage p <= 580.
Proof.
  rewrite depletionLeft_R, depletionRight_R.
  pose proof (depletion_factor_range voltage (Vbi p)) as Hf. lra.
Qed.


(** The last two tests of a frame bring the abscissa back onto the
    canvas. *)
Lemma wrap_hole_range (x3 : R) :
  let x4 := if Rltb 800 x3 then 0 else x3 in
  0 <= (if Rltb x4 0 then 800 else x4) <= 800.
Proof.
  cbv zeta. unfold Rltb.
  destruct (Rlt_dec 800 x3); destruct (Rlt_dec _ 0); lra.
Qed.

Lemma wrap_electron_range (x3 : R) :
  let x4 := if Rltb x3 0 then 800 else x3 in
  0 <= (if Rltb 800 x4 then 0 else x4) <= 800.
Proof.
  cbv zeta. unfold Rltb.
  destruct (Rlt_dec x3 0); destruct (Rlt_dec 800 _); lra.
Qed.

Lemma canvas_constants :
  @Canvas.WIDTH R R_number = 800 /\ @Canvas.HEIGHT R R_number = 300
  /\ @Canvas.CENTER_X R R_number = 400.
Proof.
  unfold Canvas.CENTER_X, Canvas.WIDTH, Canvas.HEIGHT. js_to_R.
  repeat split; lra.
Qed.

(** X13.  After a frame every particle is on the canvas horizontally,
    whatever its position and velocity before, the voltage, the speed
    and the random draws. *)
Theorem particle_stays_on_canvas
    (voltage : R) (p : DiodeParams R) (speed rBounce rWrap : R)
    (q : Canvas.Particle R) :
  0 <= Canvas.x (Canvas.updateParticle voltage p speed rBounce rWrap q) <= 800.
Proof.
  destruct canvas_constants as (HW & _ & _).
  unfold Canvas.updateParticle. destruct (Canvas.type q); cbv zeta; cbn [Canvas.x].
  - js_to_R. rewrite HW. replace (0 * / 1) with 0 by lra. apply wrap_hole_range.
  - js_to_R. rewrite HW. replace (0 * / 1) with 0 by lra. apply wrap_electron_range.
Qed.

(** X14.  A frame keeps the identity and the kind of a particle and
    the magnitude of both components of its velocity. *)
Theorem particle_keeps_speed
    (voltage : R) (p : DiodeParams R) (speed rBounce rWrap : R)
    (q : Canvas.Particle R) :
  let q' := Canvas.updateParticle voltage p speed rBounce rWrap q in
  Canvas.id q' = Canvas.id q
  /\ Canvas.type q' = Canvas.type q
  /\ Rabs (Canvas.vx q') = Rabs (Canvas.vx q)
  /\ Rabs (Canvas.vy q') = Rabs (Canvas.vy q).
Proof.
  cbv zeta. unfold Canvas.updateParticle.
  destruct (Canvas.type q) eqn:Htype; cbv zeta;
    cbn [Canvas.id Canvas.type Canvas.vx Canvas.vy]; js_to_R;
    (split; [reflexivity | split; [reflexivity | split]]).
  - destruct (_ && _ && _)%bool; [ | reflexivity].
    now rewrite Rabs_Ropp, Rabs_Rabsolu.
  - destruct (_ || _)%bool; [ | reflexivity].
    replace (Canvas.vy q * - (1 * / 1)) with (- Canvas.vy q) by lra.
    apply Rabs_Ropp.
  - destruct (_ && _ && _)%bool; [ | reflexivity].
    apply Rabs_Rabsolu.
  - destruct (_ || _)%bool; [ | reflexivity].
    replace (Canvas.vy q * - (1 * / 1)) with (- Canvas.vy q) by lra.
    apply Rabs_Ropp.
Qed.

(** X15.  The barrier: from the built-in potential upward no carrier
    is reflected, whatever the draw. *)
Theorem no_reflection_without_barrier
    (voltage : R) (p : DiodeParams R) (speed rBounce rWrap : R)
    (q : Canvas.Particle R) :
  Vbi p <= voltage -> 0 <= rBounce ->
  Canvas.vx (Canvas.updateParticle voltage p speed rBounce rWrap q) = Canvas.vx q.
Proof.
  intros Hv Hr.
  assert (Hbar : Rltb (rBounce * 2) (Canvas.effectiveBarrierHeight voltage p) = false).
  { unfold Canvas.effectiveBarrierHeight. js_to_R.
    apply Rltb_false. rewrite Rmax_left by lra. lra. }
  unfold Canvas.updateParticle.
  destruct (Canvas.type q); cbv zeta; cbn [Canvas.vx]; js_to_R;
    replace (2 * / 1) with 2 by lra; rewrite Hbar, Bool.andb_false_r; reflexivity.
Qed.

Definition resting_hole : Canvas.Particle R :=
  {| Canvas.id := 0; Canvas.x := 100; Canvas.y := 150; Canvas.vx := 2 / 10;
     Canvas.vy := - (1 / 10); Canvas.type := Canvas.hole |}.

Lemma no_reflection_without_barrier_at_1V :
  (Vbi (getDiodeParams MODERATE) <= 1 /\ 0 <= 1 / 2)
  /\ Canvas.vx (Canvas.updateParticle 1 (getDiodeParams MODERATE) 1 (1 / 2) (1 / 2)
                  resting_hole)
     = Canvas.vx resting_hole.
Proof.
  assert (HVbi : Vbi (getDiodeParams MODERATE) <= 1).
  { unfold getDiodeParams; cbn [Vbi]. js_to_R. lra. }
  split; [split; [exact HVbi | lra] | ].
  apply no_reflection_without_barrier; [exact HVbi | lra].
Defined.

(** X16.  The barrier: two volts or more below the built-in potential
    no majority carrier ends a frame inside its half of the depletion
    region. *)
Theorem total_reflection_under_reverse_bias
    (voltage : R) (p : DiodeParams R) (speed rBounce rWrap : R)
    (q : Canvas.Particle R) :
  voltage <= Vbi p - 2 -> rBounce < 1 ->
  let x' := Canvas.x (Canvas.updateParticle voltage p speed rBounce rWrap q) in
  match Canvas.type q with
  | Canvas.hole => ~ (Canvas.depletionLeft voltage p < x' < 400)
  | Canvas.electron => ~ (400 < x' < Canvas.depletionRight voltage p)
  end.
Proof.
  intros Hv Hr. cbv zeta.
  pose proof (depletion_edges_range voltage p) as (HL & HR).
  destruct canvas_constants as (HW & _ & HC).
  assert (Hbar : Rltb (rBounce * 2) (Canvas.effectiveBarrierHeight voltage p) = true).
  { unfold Canvas.effectiveBarrierHeight. js_to_R.
    apply Rltb_true. rewrite Rmax_right by lra. lra. }
  unfold Canvas.updateParticle.
  destruct (Canvas.type q); cbv zeta; cbn [Canvas.x]; js_to_R;
    replace (2 * / 1) with 2 by lra; replace (0 * / 1) with 0 by lra;
    replace (1 * / 1) with 1 by lra;
    rewrite Hbar, Bool.andb_true_r, HW, HC.
  - set (x2 := Canvas.x q + Canvas.vx q * speed
               + Canvas.biasFieldStrength voltage * speed).
    destruct (Rltb (Canvas.depletionLeft voltage p) x2) eqn:H1;
      destruct (Rltb x2 400) eqn:H2; cbn [andb];
      try apply Rltb_true_inv in H1; try apply Rltb_false_inv in H1;
      try apply Rltb_true_inv in H2; try apply Rltb_false_inv in H2;
      unfold Rltb;
      repeat match goal with |- context [Rlt_dec ?a ?b] => destruct (Rlt_dec a b) end;
      lra.
  - set (x2 := Canvas.x q + Canvas.vx q * speed
               - Canvas.biasFieldStrength voltage * speed).
    destruct (Rltb x2 (Canvas.depletionRight voltage p)) eqn:H1;
      destruct (Rltb 400 x2) eqn:H2; cbn [andb];
      try apply Rltb_true_inv in H1; try apply Rltb_false_inv in H1;
      try apply Rltb_true_inv in H2; try apply Rltb_false_inv in H2;
      unfold Rltb;
      repeat match goal with |- context [Rlt_dec ?a ?b] => destruct (Rlt_dec a b) end;
      lra.
Qed.

Lemma total_reflection_under_reverse_bias_at_minus_2V :
  (- 2 <= Vbi (getDiodeParams MODERATE) - 2 /\ 1 / 2 < 1)
  /\ ~ (Canvas.depletionLeft (- 2) (getDiodeParams MODERATE)
        < Canvas.x (Canvas.updateParticle (- 2) (getDiodeParams MODERATE) 1
                      (1 / 2) (1 / 2) resting_hole)
        < 400).
Proof.
  assert (HVbi : - 2 <= Vbi (getDiodeParams MODERATE) - 2).
  { unfold getDiodeParams; cbn [Vbi]. js_to_R. lra. }
  split; [split; [exact HVbi | lra] | ].
  assert (Hr : 1 / 2 < 1) by lra.
  exact (@total_reflection_under_reverse_bias (- 2) (getDiodeParams MODERATE) 1
           (1 / 2) (1 / 2) resting_hole HVbi Hr).
Defined.

(** X17.  With a negative breakdown voltage the footer shows exactly
    one of its four captions. *)
Theorem footer_shows_one_caption (voltage : R) (p : DiodeParams R) :
  breakdownVoltage p < 0 ->
  count_occ Bool.bool_dec (Canvas.footerCaptions voltage p) true = 1%nat.
Proof.
  intros Hbv. unfold Canvas.footerCaptions, strict_eq. js_to_R.
  replace (0 * / 1) with 0 by lra.
  destruct (Rtotal_order voltage 0) as [Hneg | [Hzero | Hpos]].
  - rewrite (@Rleb_true voltage 0), (@Rleb_false 0 voltage), (@Rltb_false 0 voltage),
      (@Rltb_true voltage 0) by lra.
    destruct (Rle_lt_dec voltage (breakdownVoltage p)) as [Hbd | Hbd].
    + rewrite (@Rltb_false (breakdownVoltage p) voltage), Rleb_true by lra. reflexivity.
    + rewrite (@Rltb_true (breakdownVoltage p) voltage), Rleb_false by lra. reflexivity.
  - rewrite (@Rleb_true voltage 0), (@Rleb_true 0 voltage), (@Rltb_false 0 voltage),
      (@Rltb_false voltage 0), (@Rleb_false voltage (breakdownVoltage p)) by lra.
    reflexivity.
  - rewrite (@Rleb_false voltage 0), (@Rleb_true 0 voltage), (@Rltb_true 0 voltage),
      (@Rltb_false voltage 0), (@Rleb_false voltage (breakdownVoltage p)) by lra.
    reflexivity.
Qed.

Lemma footer_shows_one_caption_at_moderate :
  breakdownVoltage (getDiodeParams MODERATE) < 0
  /\ count_occ Bool.bool_dec (Canvas.footerCaptions (- 1) (getDiodeParams MODERATE)) true
     = 1%nat.
Proof.
  assert (Hbv : breakdownVoltage (getDiodeParams MODERATE) < 0).
  { unfold getDiodeParams; cbn [breakdownVoltage]. js_to_R. lra. }
  split; [exact Hbv | ]. apply footer_shows_one_caption. exact Hbv.
Defined.

(** X18.  The overlay's "Breakdown!" is tied to -4 V, not to the
    diode: between a breakdown voltage below -4 V and -4 V the overlay
    says "Breakdown!" while the footer shows the leakage caption and
    the solver adds no breakdown current. *)
Theorem overlay_breakdown_before_breakdown (voltage : R) (p : DiodeParams R) :
  breakdownVoltage p < voltage -> voltage <= - 4 ->
  Canvas.overlayLabel voltage = Some "Breakdown!"
  /\ Canvas.footerCaptions voltage p = [false; false; true; false]
  /\ calculateCurrent voltage p NON_IDEAL
     = Is p * (exp (voltage / (n p * (26 / 1000))) - 1) + voltage * (1 / 100000000).
Proof.
  intros Hbv Hv. split; [ | split].
  - unfold Canvas.overlayLabel. js_to_R.
    rewrite Rabs_left by lra.
    rewrite (@Rltb_true (2 * / 10) (- voltage)), (@Rltb_false (0 * / 1) voltage),
      (@Rltb_true voltage (- (1 * / 10))), (@Rltb_false (- (4 * / 1)) voltage) by lra.
    reflexivity.
  - unfold Canvas.footerCaptions, strict_eq. js_to_R.
    rewrite (@Rleb_true voltage (0 * / 1)), (@Rleb_false (0 * / 1) voltage),
      (@Rltb_false (0 * / 1) voltage), (@Rltb_true voltage (0 * / 1)), Rltb_true,
      Rleb_false by lra.
    reflexivity.
  - rewrite calculateCurrent_nonIdeal_reverse_R by lra.
    unfold breakdownTerm. rewrite Rltb_false by lra. lra.
Qed.

Lemma overlay_breakdown_before_breakdown_at_moderate :
  (breakdownVoltage (getDiodeParams MODERATE) < - (9 / 2) /\ - (9 / 2) <= - 4)
  /\ Canvas.overlayLabel (- (9 / 2)) = Some "Breakdown!"
  /\ Canvas.footerCaptions (- (9 / 2)) (getDiodeParams MODERATE)
     = [false; false; true; false]
  /\ calculateCurrent (- (9 / 2)) (getDiodeParams MODERATE) NON_IDEAL
     = Is (getDiodeParams MODERATE)
       * (exp (- (9 / 2) / (n (getDiodeParams MODERATE) * (26 / 1000))) - 1)
       + - (9 / 2) * (1 / 100000000).
Proof.
  assert (Hbv : breakdownVoltage (getDiodeParams MODERATE) < - (9 / 2)).
  { unfold getDiodeParams; cbn [breakdownVoltage]. js_to_R. lra. }
  split; [split; [exact Hbv | lra] | ].
  apply overlay_breakdown_before_breakdown; [exact Hbv | lra].
Defined.

(** X19.  The overlay by cases: nothing up to 0.2 V in magnitude,
    "Diffusion Current" above 0.2 V, "Drift (Minority)" between -4 V
    and -0.2 V, "Breakdown!" from -4 V downward; the test [voltage <
    -0.1] never fails where it is reached. *)
Theorem overlay_label_cases (voltage : R) :
  (Canvas.overlayLabel voltage = None <-> Rabs voltage <= 2 / 10)
  /\ (Canvas.overlayLabel voltage = Some "Diffusion Current" <-> 2 / 10 < voltage)
  /\ (Canvas.overlayLabel voltage = Some "Drift (Minority)"
      <-> - 4 < voltage < - (2 / 10))
  /\ (Canvas.overlayLabel voltage = Some "Breakdown!" <-> voltage <= - 4).
Proof.
  unfold Canvas.overlayLabel. js_to_R.
  replace (0 * / 1) with 0 by lra. replace (4 * / 1) with 4 by lra.
  unfold Rltb, Rabs.
  destruct (Rcase_abs voltage);
    repeat match goal with |- context [Rlt_dec ?a ?b] => destruct (Rlt_dec a b) end;
    repeat split; intros; try congruence;
    repeat match goal with H : _ /\ _ |- _ => destruct H end; lra.
Qed.

(** X20.  The header of the canvas and the bias label of the
    application carry the same text exactly above 0.05 V, and below
    -0.05 V down to half a volt above the breakdown voltage. *)
Theorem header_label_against_bias_label (voltage : R) (p : DiodeParams R) :
  Canvas.headerLabel voltage = biasType voltage p
  <-> 5 / 100 < voltage
      \/ (breakdownVoltage p + 5 / 10 <= voltage /\ voltage < - (5 / 100)).
Proof.
  unfold Canvas.headerLabel, strict_eq. js_to_R. replace (0 * / 1) with 0 by lra.
  unfold Rleb, Rltb.
  destruct (RealLabels.biasType_cases voltage p)
    as [[-> H] | [[-> H] | [[-> H] | [-> H]]]];
    destruct (Rle_dec voltage 0); destruct (Rle_dec 0 voltage);
    destruct (Rlt_dec 0 voltage); cbn [andb];
    split; intros Heq; try discriminate Heq; try reflexivity;
    try (destruct Heq as [Heq | Heq]); lra.
Qed.

Lemma pushParticles_list (count : nat) (kind : Canvas.ParticleType) (random : nat -> R)
    (pid : nat) (ps : list (Canvas.Particle R)) :
  Canvas.pushParticles count kind random pid ps
  = (ps ++ map (fun k => Canvas.newParticle kind k (random (4 * k)%nat)
                           (random (4 * k + 1)%nat) (random (4 * k + 2)%nat)
                           (random (4 * k + 3)%nat))
               (seq pid count),
     (pid + count)%nat).
Proof.
  revert pid ps. induction count as [ | count IH]; intros pid ps.
  - cbn [Canvas.pushParticles seq map]. now rewrite app_nil_r, Nat.add_0_r.
  - cbn [Canvas.pushParticles seq map]. rewrite IH, <- app_assoc.
    cbn [app]. f_equal. lia.
Qed.

Lemma newParticle_range (kind : Canvas.ParticleType) (pid : nat) (r1 r2 r3 r4 : R) :
  0 <= r1 < 1 -> 0 <= r2 < 1 -> 0 <= r3 < 1 -> 0 <= r4 < 1 ->
  let q := Canvas.newParticle kind pid r1 r2 r3 r4 in
  match kind with
  | Canvas.hole => 0 <= Canvas.x q < 390
  | Canvas.electron => 410 <= Canvas.x q < 790
  end
  /\ 0 <= Canvas.y q < 300
  /\ Rabs (Canvas.vx q) <= 4 / 10
  /\ Rabs (Canvas.vy q) <= 4 / 10.
Proof.
  intros H1 H2 H3 H4. cbv zeta.
  destruct canvas_constants as (_ & HH & HC).
  unfold Canvas.newParticle.
  cbn [Canvas.x Canvas.y Canvas.vx Canvas.vy]. rewrite HH, HC. js_to_R.
  repeat match goal with |- _ /\ _ => split end.
  - destruct kind; lra.
  - lra.
  - lra.
  - apply Rabs_le. lra.
  - apply Rabs_le. lra.
Qed.

(** X21.  With draws in [0, 1) the canvas starts with 240 particles
    numbered 0 to 239, 120 holes followed by 120 electrons; every hole
    starts left of x = 390 and every electron right of x = 410, all
    within the height of the canvas, and no component of a velocity
    exceeds 0.4. *)
Theorem initial_particles (random : nat -> R) :
  (forall k, 0 <= random k < 1) ->
  let ps := Canvas.initParticles random in
  map (@Canvas.id R) ps = seq 0 240
  /\ map (@Canvas.type R) ps = repeat Canvas.hole 120 ++ repeat Canvas.electron 120
  /\ Forall (fun q =>
        match Canvas.type q with
        | Canvas.hole => 0 <= Canvas.x q < 390
        | Canvas.electron => 410 <= Canvas.x q < 790
        end
        /\ 0 <= Canvas.y q < 300
        /\ Rabs (Canvas.vx q) <= 4 / 10
        /\ Rabs (Canvas.vy q) <= 4 / 10) ps.
Proof.
  intros Hrandom. cbv zeta. unfold Canvas.initParticles.
  rewrite pushParticles_list. rewrite pushParticles_list. cbn [fst app].
  replace (0 + Canvas.NUM_PARTICLES)%nat with Canvas.NUM_PARTICLES by reflexivity.
  split; [ | split].
  - rewrite map_app, !map_map. cbn [Canvas.id Canvas.newParticle].
    rewrite !map_id. rewrite <- seq_app. reflexivity.
  - rewrite map_app, !map_map. cbn [Canvas.type Canvas.newParticle].
    rewrite !map_const, !length_seq. reflexivity.
  - apply Forall_app. split; apply Forall_forall; intros q [k [<- _]]%in_map_iff.
    + apply (@newParticle_range Canvas.hole); apply Hrandom.
    + apply (@newParticle_range Canvas.electron); apply Hrandom.
Qed.

Lemma initial_particles_at_half :
  (forall k : nat, 0 <= 1 / 2 < 1)
  /\ map (@Canvas.id R) (Canvas.initParticles (fun _ => 1 / 2)) = seq 0 240.
Proof.
  assert (Hrandom : forall k : nat, 0 <= 1 / 2 < 1) by (intros _; lra).
  split; [exact Hrandom | ].
  exact (proj1 (@initial_particles (fun _ => 1 / 2) Hrandom)).
Defined.

End RealCanvas.

(** ** The circuit view, the band diagram and the static dots, over the
    reals *)

Module RealWidgets.

Import RealNumber RealPhysics RealSolver.
Local Open Scope R_scope.

Lemma currentMag_R (current : R) : currentMag current = Rabs (current * 1000).
Proof. unfold currentMag. js_to_R. now replace (1000 * / 1) with 1000 by lra. Qed.

Lemma sqrt_hundredth : sqrt (1 / 100) = 1 / 10.
Proof.
  replace (1 / 100) with (1 / 10 * (1 / 10)) by lra. apply sqrt_square. lra.
Qed.

(** X22.  The moving dot of the circuit: below 0.01 mA its period is 0
    (it does not move), from 0.01 mA on the period is [max(0.2, 1 /
    sqrt(mA))], between 0.2 and 10, whatever [Math.log10] returns;
    between 0.001 and 0.01 mA the dot is drawn without moving; its
    radius is between 3 and 6. *)
Theorem circuit_dot_motion (Math_log10 : R -> R) (current : R) :
  (currentMag current < 1 / 100 -> motionDur Math_log10 current = 0)
  /\ (1 / 100 <= currentMag current ->
      motionDur Math_log10 current = Rmax (2 / 10) (1 / sqrt (currentMag current))
      /\ 2 / 10 <= motionDur Math_log10 current <= 10)
  /\ (1 / 1000 < currentMag current < 1 / 100 ->
      motionShown current = true /\ motionDur Math_log10 current = 0)
  /\ 3 <= dotRadius current <= 6.
Proof.
  assert (Hsmall : currentMag current < 1 / 100 -> motionDur Math_log10 current = 0).
  { intros Hm. unfold motionDur, animationDuration, strict_eq. js_to_R.
    rewrite (@Rltb_true (currentMag current)) by lra.
    rewrite !Rleb_true by lra. cbn [andb]. lra. }
  split; [exact Hsmall | split; [ | split]].
  - intros Hm. unfold motionDur, animationDuration, strict_eq. js_to_R.
    rewrite (@Rltb_false (currentMag current)) by lra.
    set (d := Rmax (5 * / 10) _).
    assert (Hd : 5 / 10 <= d) by apply Rmax_l.
    rewrite (@Rleb_false d) by lra. cbn [andb].
    replace (2 * / 10) with (2 / 10) by lra.
    replace (1 * / 1) with 1 by lra.
    split; [reflexivity | split; [apply Rmax_l | ]].
    apply Rmax_lub; [lra | ].
    assert (Hs : 1 / 10 <= sqrt (currentMag current)).
    { rewrite <- sqrt_hundredth. apply sqrt_le_1_alt, Hm. }
    apply Rmult_le_reg_r with (sqrt (currentMag current)); [lra | ].
    replace (1 / sqrt (currentMag current) * sqrt (currentMag current)) with 1
      by (field; lra).
    lra.
  - intros [Hlo Hhi]. split; [ | apply Hsmall, Hhi].
    unfold motionShown. js_to_R. apply Rltb_true. lra.
  - unfold dotRadius. js_to_R.
    pose proof (Rabs_pos (current * 1000)) as Hpos.
    rewrite <- currentMag_R in Hpos.
    unfold Rmin. destruct (Rle_dec (3 * / 1) (currentMag current / (50 * / 1))) as [H | H];
      split; lra.
Qed.

(** X23.  The band diagram: the step is at least 5, does not grow with
    the voltage and is 5 exactly from 2.25 V on; the two levels of the
    conduction band lie in the drawing's 0..60 range exactly from -0.5
    V upward, and all four levels only from 1.5 V upward. *)
Theorem band_step_and_levels (voltage : R) :
  5 <= stepHeight voltage
  /\ (forall v2, voltage <= v2 -> stepHeight v2 <= stepHeight voltage)
  /\ (stepHeight voltage = 5 <-> 9 / 4 <= voltage)
  /\ (Forall (fun level => 0 <= level <= 60) (firstn 2 (bandLevels voltage))
      <-> - (1 / 2) <= voltage)
  /\ (Forall (fun level => 0 <= level <= 60) (bandLevels voltage)
      <-> 3 / 2 <= voltage).
Proof.
  assert (Hstep : forall v, stepHeight v = Rmax 5 (50 - v * 20)).
  { intros v. unfold stepHeight. js_to_R.
    replace (5 * / 1) with 5 by lra. replace (50 * / 1) with 50 by lra.
    now replace (20 * / 1) with 20 by lra. }
  assert (Hlevels : bandLevels voltage
                    = [30 - stepHeight voltage / 2; 30 + stepHeight voltage / 2;
                       50 - stepHeight voltage / 2; 50 + stepHeight voltage / 2]).
  { unfold bandLevels. js_to_R.
    replace (30 * / 1) with 30 by lra. replace (50 * / 1) with 50 by lra.
    now replace (2 * / 1) with 2 by lra. }
  rewrite Hlevels. cbn [firstn]. rewrite !Hstep.
  split; [apply Rmax_l | split; [ | split; [ | split]]].
  - intros v2 Hle. rewrite Hstep. apply Rle_max_compat_l. lra.
  - unfold Rmax. destruct (Rle_dec 5 (50 - voltage * 20)); split; lra.
  - split.
    + intros H. inversion H as [ | ? ? H1 _]; subst.
      unfold Rmax in H1. destruct (Rle_dec 5 (50 - voltage * 20)); lra.
    + intros Hv. unfold Rmax. destruct (Rle_dec 5 (50 - voltage * 20));
        repeat (apply Forall_cons; [lra | ]); apply Forall_nil.
  - split.
    + intros H. apply Forall_forall with (x := 50 + Rmax 5 (50 - voltage * 20) / 2) in H;
        [ | simpl; tauto].
      unfold Rmax in H. destruct (Rle_dec 5 (50 - voltage * 20)); lra.
    + intros Hv. unfold Rmax. destruct (Rle_dec 5 (50 - voltage * 20));
        repeat (apply Forall_cons; [lra | ]); apply Forall_nil.
Qed.

(** The remainder [a % b] of JavaScript: [a - b * trunc(a / b)]. *)
Definition Rtrunc (r : R) : Z :=
  if Rle_dec 0 r then Int_part r else (- Int_part (- r))%Z.

Definition js_rem (a b : R) : R := a - b * IZR (Rtrunc (a / b)).

Lemma js_rem_range (a b : R) : 0 <= a -> 0 < b -> 0 <= js_rem a b < b.
Proof.
  intros Ha Hb. unfold js_rem, Rtrunc.
  assert (Hq : 0 <= a / b).
  { apply Rmult_le_pos; [exact Ha | left; apply Rinv_0_lt_compat, Hb]. }
  destruct (Rle_dec 0 (a / b)) as [_ | Hn]; [ | contradiction].
  destruct (base_Int_part (a / b)) as [Hlo Hhi].
  set (k := IZR (Int_part (a / b))) in *.
  assert (Heq : a = a / b * b) by (field; lra).
  assert (H1 : k * b <= a / b * b) by (apply Rmult_le_compat_r; lra).
  assert (H2 : a / b * b < (k + 1) * b) by (apply Rmult_lt_compat_r; lra).
  split; nra.
Qed.

(** X24.  Every dot of the static view is drawn in its own half with a
    margin of 20: those of the p side at 20 <= x < 280, those of the n
    side at 320 <= x < 580, all at 20 <= y < 180. *)
Theorem carrier_dots_in_region (type : Region) (k : nat) :
  let '(cx, cy) := carrierPosition sin cos js_rem type k in
  match type with
  | p_region => 20 <= cx < 280
  | n_region => 320 <= cx < 580
  end
  /\ 20 <= cy < 180.
Proof.
  unfold carrierPosition. js_to_R.
  set (r1 := Rabs _). set (r2 := Rabs _).
  assert (H1 : 0 <= r1) by apply Rabs_pos.
  assert (H2 : 0 <= r2) by apply Rabs_pos.
  replace (20 * / 1) with 20 by lra.
  replace (200 * / 1 - 40 * / 1) with 160 by lra.
  pose proof (@js_rem_range r2 160 H2 ltac:(lra)) as Hy.
  destruct type.
  - replace (600 * / 1 / (2 * / 1) - 20 - 20) with 260 by lra.
    pose proof (@js_rem_range r1 260 H1 ltac:(lra)) as Hx. split; lra.
  - replace (600 * / 1 - 20 - (600 * / 1 / (2 * / 1) + 20)) with 260 by lra.
    replace (600 * / 1 / (2 * / 1) + 20) with 320 by lra.
    pose proof (@js_rem_range r1 260 H1 ltac:(lra)) as Hx. split; lra.
Qed.

(** X25.  The panel and the canvas compute the barrier differently:
    the panel ignores a negative voltage and does not stop at zero,
    the canvas follows the voltage and stops at zero. The two numbers
    are equal exactly between 0 V and the built-in potential; with a
    built-in potential that is not negative the panel's number is
    negative exactly above it. *)
Theorem barrier_of_panel_and_canvas (voltage : R) (p : DiodeParams R) :
  (potentialBarrier voltage p = Canvas.effectiveBarrierHeight voltage p
   <-> 0 <= voltage <= Vbi p)
  /\ (0 <= Vbi p -> (potentialBarrier voltage p < 0 <-> Vbi p < voltage))
  /\ 0 <= Canvas.effectiveBarrierHeight voltage p.
Proof.
  unfold potentialBarrier, Canvas.effectiveBarrierHeight. js_to_R.
  replace (0 * / 1) with 0 by lra.
  unfold Rltb, Rmax.
  destruct (Rlt_dec 0 voltage); destruct (Rle_dec 0 (Vbi p - voltage));
    repeat split; intros;
    repeat match goal with H : _ /\ _ |- _ => destruct H end; lra.
Qed.

End RealWidgets.

(** ** The rows of the chart *)

Section ChartRows.

Context {num : Type} {ops : JsNumber num}.
Local Open Scope js_scope.

Definition chart_row (params : DiodeParams num) (x : num) : ChartRow num :=
  {| row_v := toFixed2 x;
     row_ideal := calculateCurrent (toFixed2 x) params IDEAL * lit 1000;
     row_nonIdeal := calculateCurrent (toFixed2 x) params NON_IDEAL * lit 1000 |}.

(** Reading the second series from index [length pre] on, behind any
    prefix [pre], pairs the two series point by point. *)
Lemma chartRows_from_pairs (params : DiodeParams num) (raw : list num)
    (pre : list (CurvePoint num)) :
  chartRows_from (length pre) (map (ideal_point params) raw)
                 (pre ++ map (nonIdeal_point params) raw)
  = Some (map (chart_row params) raw).
Proof.
  revert pre. induction raw as [ | x raw IH]; intros pre; [reflexivity | ].
  cbn [map chartRows_from].
  rewrite nth_error_app2, Nat.sub_diag by lia. cbn [nth_error].
  replace (pre ++ nonIdeal_point params x :: map (nonIdeal_point params) raw)
    with ((pre ++ [nonIdeal_point params x]) ++ map (nonIdeal_point params) raw)
    by now rewrite <- app_assoc.
  replace (S (length pre)) with (length (pre ++ [nonIdeal_point params x]))
    by (rewrite length_app; simpl; lia).
  rewrite IH. reflexivity.
Qed.

Lemma chartRows_by_raw (params : DiodeParams num) (raw : list num) :
  sweep_raw 1000 (- lit 5) = Some raw ->
  chartRows params = Some (map (chart_row params) raw).
Proof.
  intros Hraw. unfold chartRows.
  unfold generateCurveData. erewrite generateCurveData_by_raw by exact Hraw.
  apply (chartRows_from_pairs params raw []).
Qed.

End ChartRows.

Module ChartBinary64.

Import Floats.
Import Binary64 Binary64Number SweepBinary64.

Lemma running_sums_in_domain :
  forallb (fun x => ((- lit 5 <=? toFixed2 x) && (toFixed2 x <=? lit 5))%js) running_sums
  = true.
Proof. vm_compute. reflexivity. Qed.

(** X26.  In binary64, for every parameter record, the chart gets its
    rows: the index into the second series is never out of range;
    there are 101 rows, their voltages are those of the sweep and lie
    in the domain [-5, 5] of the horizontal axis, and both currents of
    a row are [calculateCurrent] at the row's own voltage, times 1000. *)
Theorem chartRows_101_rows (params : DiodeParams float) :
  exists rows : list (ChartRow float),
    chartRows params = Some rows
    /\ length rows = 101%nat
    /\ map (@row_v float) rows = map toFixed2 running_sums
    /\ Forall (fun r => ((- lit 5 <=? row_v r) && (row_v r <=? lit 5))%js = true) rows
    /\ Forall (fun r =>
         row_ideal r = (calculateCurrent (row_v r) params IDEAL * lit 1000)%js
         /\ row_nonIdeal r = (calculateCurrent (row_v r) params NON_IDEAL * lit 1000)%js)
       rows.
Proof.
  exists (map (chart_row params) running_sums).
  split; [ | split; [ | split; [ | split]]].
  - apply chartRows_by_raw.
    eapply sweep_raw_more_fuel; [exact sweep_raw_running_sums | lia].
  - rewrite length_map. apply running_sums_fixed.
  - rewrite map_map. reflexivity.
  - apply Forall_forall. intros r [x [<- Hx]]%in_map_iff.
    pose proof running_sums_in_domain as Hdom.
    rewrite forallb_forall in Hdom. exact (Hdom x Hx).
  - apply Forall_forall. intros r [x [<- _]]%in_map_iff. split; reflexivity.
Qed.

End ChartBinary64.

(** ** The labels along the slider, in binary64 *)

Module LabelsBinary64.

Import Floats.
Import Binary64 Binary64Number EvaluationBinary64.
Local Open Scope string_scope.

Definition one_shown (l : list bool) : bool :=
  Nat.eqb (count_occ Bool.bool_dec l true) 1.

(** What is checked at one position of the slider. *)
Definition labels_agree (p : DiodeParams float) (x : float) : bool :=
  one_shown (panelBlocks x p)
  && one_shown (Canvas.footerCaptions x p)
  && implb (isBreakdown x p) (String.eqb (biasType x p) "Breakdown Region")
  && implb (String.eqb (biasType x p) "Forward Bias")
           (nth 1 (Canvas.footerCaptions x p) false).

Lemma labels_checks :
  forallb (fun d => forallb (labels_agree (getDiodeParams d)) slider_voltages)
          [LIGHT; MODERATE; HEAVY] = true.
Proof. vm_compute. reflexivity. Qed.

(** X27.  In binary64, for each of the three parameter records and
    each voltage of the slider: the panel shows exactly one of its
    four blocks and the footer exactly one of its four captions; at or
    below the breakdown voltage the label is "Breakdown Region"; under
    the label "Forward Bias" the footer shows its forward caption. *)
Theorem labels_on_slider (doping : DopingLevel) :
  Forall (fun x =>
    let p := getDiodeParams doping in
    count_occ Bool.bool_dec (panelBlocks x p) true = 1%nat
    /\ count_occ Bool.bool_dec (Canvas.footerCaptions x p) true = 1%nat
    /\ (isBreakdown x p = true -> biasType x p = "Breakdown Region")
    /\ (biasType x p = "Forward Bias" -> nth 1 (Canvas.footerCaptions x p) false = true))
    slider_voltages.
Proof.
  pose proof labels_checks as Hall.
  rewrite forallb_forall in Hall.
  assert (Hd : In doping [LIGHT; MODERATE; HEAVY])
    by (destruct doping; simpl; tauto).
  specialize (Hall doping Hd). rewrite forallb_forall in Hall.
  apply Forall_forall. intros x Hx. specialize (Hall x Hx).
  unfold labels_agree in Hall.
  apply andb_prop in Hall as [Hall Hforward].
  apply andb_prop in Hall as [Hall Hbreak].
  apply andb_prop in Hall as [Hpanel Hfooter].
  cbv zeta. split; [ | split; [ | split]].
  - apply Nat.eqb_eq, Hpanel.
  - apply Nat.eqb_eq, Hfooter.
  - intros Hb. rewrite Hb in Hbreak. apply String.eqb_eq, Hbreak.
  - intros Hf. apply String.eqb_eq in Hf. rewrite Hf in Hforward. exact Hforward.
Qed.

End LabelsBinary64.
